(** * scn-ts-web-demo: the option tree of [OutputOptions.tsx] and the analysis
    hook of [useAnalysis.hook.ts], embedded and verified.

    Conventions of the embedding.
    - A JavaScript string is a [string] of bytes.  Every string constant of the
      program is ASCII except the section sign in one label, which has no case;
      [toLowerCase] and [trim] are therefore exact on the program's own text
      and on ASCII queries (Unicode case folding and Unicode white space are
      outside the model).
    - An object used as a dictionary is a [gmap string _]; an optional field
      is an [option].
    - A number that counts tokens or milliseconds is a [Z]. *)

From stdpp Require Import gmap strings list fin_maps.
From Stdlib Require Import ZArith Ascii.
From Stdlib Require QArith Qminmax.

Open Scope string_scope.
Open Scope list_scope.
Set Warnings "-register-all,-clear-no-such-hyp".

(* ===================================================================== *)
(** * String primitives *)
(* ===================================================================== *)

Module JsString.

(** [s.startsWith(p)] *)
Definition startsWith (s p : string) : bool := String.prefix p s.

(** [s.substring(n)]: the suffix of [s] from index [n]. *)
Definition substringFrom (s : string) (n : nat) : string :=
  String.substring n (String.length s - n) s.

Definition lowerChar (c : ascii) : ascii :=
  let n := nat_of_ascii c in
  if (65 <=? n)%nat && (n <=? 90)%nat then ascii_of_nat (n + 32) else c.

(** [s.toLowerCase()] *)
Fixpoint toLowerCase (s : string) : string :=
  match s with
  | EmptyString => EmptyString
  | String c t => String (lowerChar c) (toLowerCase t)
  end.

(** [hay.includes(needle)] *)
Fixpoint includes (hay needle : string) : bool :=
  String.prefix needle hay
  || match hay with
     | EmptyString => false
     | String _ t => includes t needle
     end.

(** TAB, LF, VT, FF, CR and SPACE. *)
Definition isWhiteSpace (c : ascii) : bool :=
  let n := nat_of_ascii c in
  ((9 <=? n)%nat && (n <=? 13)%nat) || (n =? 32)%nat.

Fixpoint trimStart (s : string) : string :=
  match s with
  | EmptyString => EmptyString
  | String c t => if isWhiteSpace c then trimStart t else s
  end.

Fixpoint trimEnd (s : string) : string :=
  match s with
  | EmptyString => EmptyString
  | String c t =>
      match trimEnd t with
      | EmptyString => if isWhiteSpace c then EmptyString else String c EmptyString
      | t' => String c t'
      end
  end.

(** [s.trim()] *)
Definition trim (s : string) : string := trimEnd (trimStart s).

(** Truthiness of a string value: only the empty string is falsy. *)
Definition truthy (s : string) : bool :=
  match s with EmptyString => false | String _ _ => true end.

End JsString.
Import JsString.

(* ===================================================================== *)
(** * ConfigTree: [OptionItem], its constants and its traversals *)
(* ===================================================================== *)

(** [type OptionItem = RegularOptionKey | string | { name; children }] *)
Unset Elimination Schemes.
Inductive OptionItem : Type :=
| Leaf (key : string)
| Group (name : string) (children : list OptionItem).
Set Elimination Schemes.

(** Induction over the tree with the children handled by [Forall]. *)
Fixpoint OptionItem_tree_ind (P : OptionItem -> Prop)
    (HLeaf : forall key, P (Leaf key))
    (HGroup : forall name children, Forall P children -> P (Group name children))
    (item : OptionItem) {struct item} : P item :=
  match item with
  | Leaf key => HLeaf key
  | Group name children =>
      HGroup name children
        ((fix go (l : list OptionItem) : Forall P l :=
            match l with
            | [] => List.Forall_nil P
            | c :: l' => @List.Forall_cons _ P c l' (OptionItem_tree_ind P HLeaf HGroup c) (go l')
            end) children)
  end.

Definition symbolKindLabels : gmap string string :=
  list_to_map
    [ ("class", "Classes"); ("interface", "Interfaces"); ("function", "Functions");
      ("method", "Methods"); ("constructor", "Constructors"); ("variable", "Variables");
      ("property", "Properties"); ("enum", "Enums"); ("enum_member", "Enum Members");
      ("type_alias", "Type Aliases"); ("module", "Modules");
      ("react_component", "React Components"); ("styled_component", "Styled Components");
      ("jsx_element", "JSX Elements");
      ("css_class", "CSS Classes"); ("css_id", "CSS IDs"); ("css_tag", "CSS Tags");
      ("css_at_rule", "CSS At-Rules"); ("css_variable", "CSS Variables");
      ("go_package", "Go Packages");
      ("rust_struct", "Rust Structs"); ("rust_trait", "Rust Traits");
      ("rust_impl", "Rust Impls") ].

Definition tsDeclarationKinds : list string :=
  ["class"; "interface"; "function"; "variable"; "enum"; "type_alias"; "module"].
Definition tsMemberKinds : list string :=
  ["method"; "constructor"; "property"; "enum_member"].
Definition reactKinds : list string :=
  ["react_component"; "styled_component"; "jsx_element"].
Definition cssKinds : list string :=
  ["css_class"; "css_id"; "css_tag"; "css_at_rule"; "css_variable"].
Definition goKinds : list string := ["go_package"].
Definition rustKinds : list string := ["rust_struct"; "rust_trait"; "rust_impl"].

Definition toFilter (kind : string) : string := "filter:" +:+ kind.

Definition filterLeaves (kinds : list string) : list OptionItem :=
  map (fun kind => Leaf (toFilter kind)) kinds.

Definition symbolVisibilityTree : OptionItem :=
  Group "Symbol Visibility"
    [ Group "TypeScript/JavaScript"
        [ Group "Declarations" (filterLeaves tsDeclarationKinds);
          Group "Members" (filterLeaves tsMemberKinds) ];
      Group "React" (filterLeaves reactKinds);
      Group "CSS" (filterLeaves cssKinds);
      Group "Other Languages"
        [ Group "Go" (filterLeaves goKinds);
          Group "Rust" (filterLeaves rustKinds) ] ].

Definition optionTree : list OptionItem :=
  [ Group "Display Elements"
      [ Leaf "showIcons";
        Group "Indicators" [Leaf "showExportedIndicator"; Leaf "showPrivateIndicator"];
        Leaf "showModifiers";
        Leaf "showTags";
        Group "Identifiers" [Leaf "showFilePrefix"; Leaf "showFileIds"; Leaf "showSymbolIds"] ];
    Group "Relationships" [Leaf "showOutgoing"; Leaf "showIncoming"];
    Group "Structure" [Leaf "groupMembers"; Leaf "showOnlyExports"];
    symbolVisibilityTree ].

(** [{ ...symbolKindLabels, showIcons: 'Icons', ... }]: the properties written
    after the spread win, hence the left-biased union with them on the left.
    The label of [showFilePrefix] ends in a section sign, written here as its
    two UTF-8 bytes. *)
Definition optionLabels : gmap string string :=
  list_to_map
    [ ("showIcons", "Icons");
      ("showExportedIndicator", "Exported (+)");
      ("showPrivateIndicator", "Private (-)");
      ("showModifiers", "Modifiers");
      ("showTags", "Tags");
      ("showSymbolIds", "Symbol IDs");
      ("showFilePrefix", "File Prefix (" +:+ String (ascii_of_nat 194) (String (ascii_of_nat 167) ")"));
      ("showFileIds", "File IDs");
      ("showOutgoing", "Outgoing");
      ("showIncoming", "Incoming");
      ("groupMembers", "Group Members");
      ("showOnlyExports", "Show Only Exports") ]
  ∪ symbolKindLabels.

(** [getAllKeys]: the leaf keys under an item, in pre-order. *)
Fixpoint getAllKeys (item : OptionItem) : list string :=
  match item with
  | Leaf key => [key]
  | Group _ children => flat_map getAllKeys children
  end.

(** The arrow passed to [flatMap] inside [getAllGroupNames]. *)
Fixpoint groupNamesOf (item : OptionItem) : list string :=
  match item with
  | Leaf _ => []
  | Group name children => name :: flat_map groupNamesOf children
  end.

Definition getAllGroupNames (items : list OptionItem) : list string :=
  flat_map groupNamesOf items.

(** [arr.filter(c => c !== null)] on an array of nullable items. *)
Fixpoint dropNull {A : Type} (l : list (option A)) : list A :=
  match l with
  | [] => []
  | Some x :: l' => x :: dropNull l'
  | None :: l' => dropNull l'
  end.

Section Filter.

(** The label table and the forest are constants of the component; they are
    section variables so that the traversals can be studied on every forest. *)
Variable labels : gmap string string.

(** [optionLabels[item] || item], the [label] of a leaf inside [filter]. *)
Definition filterLabel (item : string) : string :=
  match labels !! item with
  | Some l => if truthy l then l else item
  | None => item
  end.

(** The inner function [filter] of [filteredOptionTree]. *)
Fixpoint filter (lowerCaseSearchTerm : string) (item : OptionItem) : option OptionItem :=
  match item with
  | Leaf key =>
      let label := filterLabel key in
      if includes (toLowerCase label) lowerCaseSearchTerm then Some item else None
  | Group name children =>
      if includes (toLowerCase name) lowerCaseSearchTerm then Some item
      else
        let filteredChildren := dropNull (map (filter lowerCaseSearchTerm) children) in
        if (0 <? length filteredChildren)%nat
        then Some (Group name filteredChildren)
        else None
  end.

(** The memoised value [filteredOptionTree] for a forest and a search term. *)
Definition filteredTree (tree : list OptionItem) (searchTerm : string) : list OptionItem :=
  if negb (truthy (trim searchTerm)) then tree
  else
    let lowerCaseSearchTerm := toLowerCase searchTerm in
    dropNull (map (filter lowerCaseSearchTerm) tree).

(** The text shown next to a leaf checkbox by [renderItem]:
    [optionLabels[labelKey] ?? labelKey] with [labelKey = filterKind ?? key]. *)
Definition displayLabel (key : string) : string :=
  let isFilter := startsWith key "filter:" in
  let labelKey := if isFilter then substringFrom key (String.length "filter:") else key in
  default labelKey (labels !! labelKey).

End Filter.

Definition filteredOptionTree (searchTerm : string) : list OptionItem :=
  filteredTree optionLabels optionTree searchTerm.

(** Structural reading of "a leaf key under a node" and "a group of a forest",
    independent of the flattening functions above. *)
Inductive leafUnder (key : string) : OptionItem -> Prop :=
| leafUnder_leaf : leafUnder key (Leaf key)
| leafUnder_child name children child :
    In child children -> leafUnder key child -> leafUnder key (Group name children).

Inductive groupWithin (g : string) : OptionItem -> Prop :=
| groupWithin_here children : groupWithin g (Group g children)
| groupWithin_child name children child :
    In child children -> groupWithin g child -> groupWithin g (Group name children).

(** [leafAt path key item]: [key] is a leaf of [item] and [path] lists the
    names of the groups from [item] down to the parent of the leaf. *)
Inductive leafAt : list string -> string -> OptionItem -> Prop :=
| leafAt_leaf key : leafAt [] key (Leaf key)
| leafAt_child path key name children child :
    In child children -> leafAt path key child ->
    leafAt (name :: path) key (Group name children).

(* ===================================================================== *)
(** * OptionState: [FormattingOptions] and its updates *)
(* ===================================================================== *)

(** [presets] of the component: the values of [FormattingPreset]. *)
Inductive FormattingPreset : Type :=
| PresetMinimal | PresetCompact | PresetDefault | PresetDetailed | PresetVerbose.

(** [interface FormattingOptions].  The optional boolean properties
    ([showOutgoing], ..., [showOnlyExports]) are read and written through a
    computed key, [options[key as RegularOptionKey]]; they form the dictionary
    [flags].  [RegularOptionKey] excludes the two other properties, which are
    fields of their own. *)
Record FormattingOptions : Type := mkFormattingOptions {
  preset : option FormattingPreset;
  flags : gmap string bool;
  displayFilters : option (gmap string bool)
}.

(** The argument of [onCheckedChange]: [boolean | 'indeterminate']. *)
Inductive CheckedState : Type := Checked | Unchecked | Indeterminate.

(** [checked === true] *)
Definition isCheckedTrue (checked : CheckedState) : bool :=
  match checked with Checked => true | _ => false end.

Definition filterPrefix : string := "filter:".

(** [key.substring('filter:'.length)] *)
Definition kindOf (key : string) : string :=
  substringFrom key (String.length filterPrefix).

(** The arrow given to [every] for the group checkbox (and for
    [areAllSelected]); the same expression feeds [checked] of a leaf. *)
Definition keyChecked (options : FormattingOptions) (key : string) : bool :=
  if startsWith key filterPrefix then
    let kind := kindOf key in
    match displayFilters options with
    | Some filters =>
        match filters !! kind with
        | Some b => b
        | None => true
        end
    | None => true
    end
  else default true (flags options !! key).

(** [allChecked] of [renderItem], for a group item. *)
Definition allChecked (options : FormattingOptions) (item : OptionItem) : bool :=
  let allKeys := getAllKeys item in
  forallb (keyChecked options) allKeys.

Definition allOptionKeys : list string := flat_map getAllKeys optionTree.

Definition areAllSelected (options : FormattingOptions) : bool :=
  if (length allOptionKeys =? 0)%nat then false
  else forallb (keyChecked options) allOptionKeys.

(** The updater passed to [setOptions] by [handleChange optionKey checked]. *)
Definition handleChange (optionKey : string) (checked : CheckedState)
    (prev : FormattingOptions) : FormattingOptions :=
  let isChecked := isCheckedTrue checked in
  if startsWith optionKey filterPrefix then
    let kind := kindOf optionKey in
    {| preset := None;
       flags := flags prev;
       displayFilters := Some (<[kind := isChecked]> (default ∅ (displayFilters prev))) |}
  else
    {| preset := None;
       flags := <[optionKey := isChecked]> (flags prev);
       displayFilters := displayFilters prev |}.

(** One turn of the [for (const key of keys)] loop shared by
    [handleGroupChange], [selectAll] and [deselectAll]: the loop state is the
    pair of [newOptions] (only its flags change) and [newDisplayFilters]. *)
Definition assignKey (value : bool)
    (acc : gmap string bool * gmap string bool) (key : string)
    : gmap string bool * gmap string bool :=
  let '(newFlags, newDisplayFilters) := acc in
  if startsWith key filterPrefix
  then (newFlags, <[kindOf key := value]> newDisplayFilters)
  else (<[key := value]> newFlags, newDisplayFilters).

Definition assignKeys (keys : list string) (value : bool) (prev : FormattingOptions)
    : FormattingOptions :=
  let newFlags := flags prev in
  let newDisplayFilters := default ∅ (displayFilters prev) in
  let '(newFlags, newDisplayFilters) :=
    fold_left (assignKey value) keys (newFlags, newDisplayFilters) in
  {| preset := None; flags := newFlags; displayFilters := Some newDisplayFilters |}.

(** The updater passed to [setOptions] by [handleGroupChange keys checked]. *)
Definition handleGroupChange (keys : list string) (checked : CheckedState)
    (prev : FormattingOptions) : FormattingOptions :=
  let isChecked := isCheckedTrue checked in
  assignKeys keys isChecked prev.

Definition selectAll (prev : FormattingOptions) : FormattingOptions :=
  assignKeys allOptionKeys true prev.

Definition deselectAll (prev : FormattingOptions) : FormattingOptions :=
  assignKeys allOptionKeys false prev.

(** The spec's [isSelected(state, key)]: a filter key is looked up in
    [displayFilters] under its kind, a regular key in [flags]; an absent entry
    counts as selected. *)
Definition filterEntry (state : FormattingOptions) (kind : string) : option bool :=
  match displayFilters state with
  | Some filters => filters !! kind
  | None => None
  end.

Definition isSelected (state : FormattingOptions) (key : string) : bool :=
  if String.prefix filterPrefix key
  then default true (filterEntry state (kindOf key))
  else default true (flags state !! key).

(** The stored entry a key addresses, if any. *)
Definition entryOf (state : FormattingOptions) (key : string) : option bool :=
  if startsWith key filterPrefix
  then filterEntry state (kindOf key)
  else flags state !! key.

(* ===================================================================== *)
(** * ImpactAnnotator: token impact of a group *)
(* ===================================================================== *)

(** [FormattingOptionsTokenImpact] as the component reads it: two optional
    dictionaries of numbers. *)
Record FormattingOptionsTokenImpact : Type := mkTokenImpact {
  impactOptions : option (gmap string Z);
  impactDisplayFilters : option (gmap string Z)
}.

(** The local [impact] of the reducer: [undefined] is [None].  The entry of
    a filter kind is read under [Object.hasOwn]; the read
    [tokenImpact.options?.[key]] is a plain property read, which for a key
    named like a property every object inherits would find the inherited
    value.  The dictionary lookup stands for it on all other keys. *)
Definition keyImpact (tokenImpact : FormattingOptionsTokenImpact) (key : string) : option Z :=
  if startsWith key filterPrefix then
    let kind := kindOf key in
    match impactDisplayFilters tokenImpact with
    | Some filters => filters !! kind
    | None => None
    end
  else
    match impactOptions tokenImpact with
    | Some opts => opts !! key
    | None => None
    end.

(** [groupTokenImpact] of [renderItem], computed in the branch of a group
    item [{ name, children }] only: [null] without a table, otherwise the
    left-to-right [reduce] from [0] over [getAllKeys(item)]. *)
Definition groupTokenImpact (tokenImpact : option FormattingOptionsTokenImpact)
    (name : string) (children : list OptionItem) : option Z :=
  let allKeys := getAllKeys (Group name children) in
  match tokenImpact with
  | Some table =>
      Some (fold_left (fun sum key => (sum + default 0 (keyImpact table key))%Z) allKeys 0%Z)
  | None => None
  end.

(** The template [`${impact > 0 ? '+' : ''}${impact}`]: the sign prefix and
    the number. *)
Definition signedImpact (impact : Z) : string * Z :=
  (if (0 <? impact)%Z then "+" else "", impact).

(** [impactDisplay], the span of a group row. *)
Definition impactDisplay (tokenImpact : option FormattingOptionsTokenImpact)
    (name : string) (children : list OptionItem) : option (string * Z) :=
  match tokenImpact, groupTokenImpact tokenImpact name children with
  | Some _, Some impact => Some (signedImpact impact)
  | _, _ => None
  end.

(** The span of a leaf row: nothing without a table, and nothing when the
    table has no entry for the key ([impact === undefined]). *)
Definition leafImpactDisplay (tokenImpact : option FormattingOptionsTokenImpact)
    (key : string) : option (string * Z) :=
  match tokenImpact with
  | Some table =>
      match keyImpact table key with
      | Some impact => Some (signedImpact impact)
      | None => None
      end
  | None => None
  end.

(** The impact [renderItem] shows next to an item. *)
Definition shownImpact (tokenImpact : option FormattingOptionsTokenImpact)
    (item : OptionItem) : option (string * Z) :=
  match item with
  | Leaf key => leafImpactDisplay tokenImpact key
  | Group name children => impactDisplay tokenImpact name children
  end.

(** The spec's reading of the cost table, written without the code's reducer:
    the entry of a filter key [filter:<kind>] is the entry of [displayFilters]
    under the kind, the entry of any other key is the entry of [options]
    under the key; the cost of a key is its entry, or [0] without one; the
    cost of a node is the sum over its subtree. *)
Definition costEntry (table : FormattingOptionsTokenImpact) (key : string) : option Z :=
  if String.prefix filterPrefix key then
    match impactDisplayFilters table with
    | Some filters => filters !! kindOf key
    | None => None
    end
  else
    match impactOptions table with
    | Some opts => opts !! key
    | None => None
    end.

Definition costOf (table : FormattingOptionsTokenImpact) (key : string) : Z :=
  match costEntry table key with
  | Some cost => cost
  | None => 0%Z
  end.

Fixpoint subtreeCost (table : FormattingOptionsTokenImpact) (item : OptionItem) : Z :=
  match item with
  | Leaf key => costOf table key
  | Group _ children =>
      fold_right (fun child acc => (subtreeCost table child + acc)%Z) 0%Z children
  end.

(* ===================================================================== *)
(** * Expand state and search of the options panel *)
(* ===================================================================== *)

Record PanelState : Type := mkPanelState {
  expandedGroups : gset string;
  searchTerm : string
}.

Definition initialPanelState : PanelState :=
  {| expandedGroups :=
       list_to_set
         [ "Display Elements"; "Indicators"; "Relationships"; "Structure";
           "TypeScript/JavaScript"; "React"; "Identifiers" ];
     searchTerm := "" |}.

Definition allFilteredGroupNames (searchTerm : string) : list string :=
  getAllGroupNames (filteredOptionTree searchTerm).

Definition areAllExpanded (st : PanelState) : bool :=
  let names := allFilteredGroupNames (searchTerm st) in
  (0 <? length names)%nat && forallb (fun g => bool_decide (g ∈ expandedGroups st)) names.

(** The body of the effect that follows the search term: with a non-blank term
    it replaces the expanded set, otherwise it does nothing. *)
Definition searchEffect (searchTerm : string) (expanded : gset string) : gset string :=
  if truthy (trim searchTerm)
  then list_to_set (allFilteredGroupNames searchTerm)
  else expanded.

(** Typing in the search box: [setSearchTerm] with a new value re-renders, the
    memoised values are recomputed and the effect runs since [searchTerm] is
    one of its dependencies.  Setting the same value is no state change. *)
Definition onSearchChange (value : string) (st : PanelState) : PanelState :=
  if String.eqb value (searchTerm st) then st
  else {| expandedGroups := searchEffect value (expandedGroups st); searchTerm := value |}.

Definition expandAll (st : PanelState) : PanelState :=
  {| expandedGroups := list_to_set (allFilteredGroupNames (searchTerm st));
     searchTerm := searchTerm st |}.

Definition collapseAll (st : PanelState) : PanelState :=
  {| expandedGroups := ∅; searchTerm := searchTerm st |}.

Definition toggleGroup (groupName : string) (st : PanelState) : PanelState :=
  {| expandedGroups :=
       if bool_decide (groupName ∈ expandedGroups st)
       then expandedGroups st ∖ {[ groupName ]}
       else expandedGroups st ∪ {[ groupName ]};
     searchTerm := searchTerm st |}.

(* ===================================================================== *)
(** * Analysis job: worker, service and the [useAnalysis] hook *)
(* ===================================================================== *)

Inductive LogLevel : Type := LevelError | LevelWarn | LevelInfo | LevelDebug.

Record LogEntry : Type := mkLogEntry {
  level : LogLevel;
  message : string;
  timestamp : Z
}.

Record ProgressData : Type := mkProgressData {
  percentage : Z;
  progressMessage : string
}.

(** A thrown [Error] as the hook inspects it: its [name] and its [message]. *)
Record JsError : Type := mkJsError {
  errorName : string;
  errorMessage : string
}.

(** [new Error(msg)] *)
Definition newError (msg : string) : JsError :=
  {| errorName := "Error"; errorMessage := msg |}.

Record FileContent : Type := mkFileContent {
  filePath : string;
  fileContent : string
}.

(** The fields of the analyzer's records that the worker touches; the parse
    tree and the two handles of the language object are opaque tokens. *)
Record Language : Type := mkLanguage {
  languageId : string;
  languageParser : option N;
  loadedLanguage : option N
}.

Record SourceFile : Type := mkSourceFile {
  sourcePath : string;
  sourceAst : option N;
  sourceLanguage : option Language
}.

(** How a promise settles. *)
Inductive Settlement (A : Type) : Type :=
| Resolved (value : A)
| Rejected (reason : JsError).
Arguments Resolved {A} value.
Arguments Rejected {A} reason.

(** The single argument of the worker's [analyze]. *)
Record AnalyzeRequest : Type := mkAnalyzeRequest {
  reqFilesInput : string;
  reqLogLevel : LogLevel;
  reqFormattingOptions : FormattingOptions;
  reqIncludePattern : string;
  reqExcludePattern : string
}.

Record AnalyzeResponse : Type := mkAnalyzeResponse {
  result : list SourceFile;
  analysisTime : Z;
  tokenImpact : FormattingOptionsTokenImpact
}.

(** How the awaited call of [analyzeProject] ends: it is the library's
    business (it also observes the abort signal), so its outcome is an input
    of the model. *)
Inductive ProjectOutcome : Type :=
| ProjectRejected (reason : JsError)
| ProjectAnalyzed (sourceFiles : list SourceFile) (elapsed : Z).

(** [sanitizeAnalysisResult] *)
Definition sanitizeLanguage (language : Language) : Language :=
  {| languageId := languageId language; languageParser := None; loadedLanguage := None |}.

Definition sanitizeAnalysisResult (files : list SourceFile) : list SourceFile :=
  map (fun file =>
         {| sourcePath := sourcePath file;
            sourceAst := None;
            sourceLanguage := option_map sanitizeLanguage (sourceLanguage file) |})
      files.

Section Worker.

(** Library functions the worker calls.  [parseFileList] stands for
    [JSON.parse] followed by the [Array.isArray] test, with the message of
    the error on the right; [calculateTokenImpact] is the function of that
    name of the core library. *)
Variable parseFileList : string -> list FileContent + string.
Variable calculateTokenImpact :
  list SourceFile -> FormattingOptions -> FormattingOptionsTokenImpact.

(** The worker's [analyze], from its guard to its [return]; the include and
    exclude lists only travel to [analyzeProject]. *)
Definition workerAnalyze (workerInitialized : bool) (request : AnalyzeRequest)
    (project : ProjectOutcome) : Settlement AnalyzeResponse :=
  if negb workerInitialized then Rejected (newError "Worker not initialized.")
  else
    match parseFileList (reqFilesInput request) with
    | inr parseMessage => Rejected (newError ("Invalid JSON input: " +:+ parseMessage))
    | inl files =>
        match project with
        | ProjectRejected reason => Rejected reason
        | ProjectAnalyzed analysisResult elapsed =>
            let impact := calculateTokenImpact analysisResult (reqFormattingOptions request) in
            Resolved {| result := sanitizeAnalysisResult analysisResult;
                        analysisTime := elapsed;
                        tokenImpact := impact |}
        end
    end.

End Worker.

(** The state cells of [useAnalysis]; [serviceRef] records whether the ref
    holds a service. *)
Record HookState : Type := mkHookState {
  isInitialized : bool;
  isLoading : bool;
  analysisResult : option (list SourceFile);
  progress : option ProgressData;
  logs : list LogEntry;
  analysisTimeCell : option Z;
  tokenImpactCell : option FormattingOptionsTokenImpact;
  serviceRef : bool
}.

(** The state after the mount effect created the service. *)
Definition mountedHook : HookState :=
  {| isInitialized := false; isLoading := false; analysisResult := None;
     progress := None; logs := []; analysisTimeCell := None;
     tokenImpactCell := None; serviceRef := true |}.

Definition setLogs (f : list LogEntry -> list LogEntry) (st : HookState) : HookState :=
  {| isInitialized := isInitialized st; isLoading := isLoading st;
     analysisResult := analysisResult st; progress := progress st;
     logs := f (logs st); analysisTimeCell := analysisTimeCell st;
     tokenImpactCell := tokenImpactCell st; serviceRef := serviceRef st |}.

Definition setProgress (p : option ProgressData) (st : HookState) : HookState :=
  {| isInitialized := isInitialized st; isLoading := isLoading st;
     analysisResult := analysisResult st; progress := p;
     logs := logs st; analysisTimeCell := analysisTimeCell st;
     tokenImpactCell := tokenImpactCell st; serviceRef := serviceRef st |}.

Definition setIsLoading (b : bool) (st : HookState) : HookState :=
  {| isInitialized := isInitialized st; isLoading := b;
     analysisResult := analysisResult st; progress := progress st;
     logs := logs st; analysisTimeCell := analysisTimeCell st;
     tokenImpactCell := tokenImpactCell st; serviceRef := serviceRef st |}.

Definition setIsInitialized (b : bool) (st : HookState) : HookState :=
  {| isInitialized := b; isLoading := isLoading st;
     analysisResult := analysisResult st; progress := progress st;
     logs := logs st; analysisTimeCell := analysisTimeCell st;
     tokenImpactCell := tokenImpactCell st; serviceRef := serviceRef st |}.

(** The three setters called in a row after a successful [await]. *)
Definition setOutcome (response : AnalyzeResponse) (st : HookState) : HookState :=
  {| isInitialized := isInitialized st; isLoading := isLoading st;
     analysisResult := Some (result response); progress := progress st;
     logs := logs st; analysisTimeCell := Some (analysisTime response);
     tokenImpactCell := Some (tokenImpact response); serviceRef := serviceRef st |}.

(** [onLog]: [setLogs(prev => [...prev, log])] *)
Definition onLog (log : LogEntry) (st : HookState) : HookState :=
  setLogs (fun prev => prev ++ [log]) st.

(** [onLogPartial]; [now] is the reading of [Date.now()]. *)
Definition onLogPartial (lvl : LogLevel) (msg : string) (now : Z) (st : HookState) : HookState :=
  onLog {| level := lvl; message := msg; timestamp := now |} st.

(** [initializeWorker] once [service.init()] has settled. *)
Definition initializeWorker (settled : Settlement unit) (now : Z) (st : HookState) : HookState :=
  match settled with
  | Resolved _ => onLogPartial LevelInfo "Analysis worker ready." now (setIsInitialized true st)
  | Rejected error =>
      onLogPartial LevelError ("Worker failed to initialize: " +:+ errorMessage error) now st
  end.

(** [resetAnalysisState] *)
Definition resetAnalysisState (st : HookState) : HookState :=
  {| isInitialized := isInitialized st; isLoading := isLoading st;
     analysisResult := None; progress := None; logs := [];
     analysisTimeCell := None; tokenImpactCell := None; serviceRef := serviceRef st |}.

(** Where the synchronous part of [handleAnalyze] stops: at a [return] (the
    promise of the async function is then resolved with [undefined]) or at the
    [await] of the request handed to the service. *)
Inductive HandleStep : Type :=
| Returned
| Awaiting (request : AnalyzeRequest).

(** [handleAnalyze] up to its [await].  The body tests [isInitialized] and
    [isLoading] as constants of the render that built the callback
    ([seenInitialized], [seenLoading]); [serviceRef.current] is read from the
    ref, and the setters act on the live state [st]. *)
Definition handleAnalyzeCall (seenInitialized seenLoading : bool)
    (filesInput : string) (formattingOptions : FormattingOptions)
    (includePattern excludePattern : string) (now : Z) (st : HookState)
    : HookState * HandleStep :=
  if negb seenInitialized || negb (serviceRef st) then
    (onLogPartial LevelWarn "Analysis worker not ready." now st, Returned)
  else if seenLoading then
    (st, Returned)
  else
    let st1 := setIsLoading true st in
    let st2 := resetAnalysisState st1 in
    (st2, Awaiting {| reqFilesInput := filesInput;
                      reqLogLevel := LevelDebug;
                      reqFormattingOptions := formattingOptions;
                      reqIncludePattern := includePattern;
                      reqExcludePattern := excludePattern |}).

(** A call made through the callback of the current render: the callback is
    rebuilt whenever [isInitialized] or [isLoading] changes (they are in its
    dependency list), so after a re-render the constants it tests are the
    values of the state it is called in. *)
Definition handleAnalyzeBegin (filesInput : string) (formattingOptions : FormattingOptions)
    (includePattern excludePattern : string) (now : Z) (st : HookState)
    : HookState * HandleStep :=
  handleAnalyzeCall (isInitialized st) (isLoading st)
    filesInput formattingOptions includePattern excludePattern now st.

(** [handleAnalyze] from the settled [await] to its end: the [try] tail or the
    [catch], then the [finally]. *)
Definition handleAnalyzeResume (settled : Settlement AnalyzeResponse) (now : Z)
    (st : HookState) : HookState :=
  let st1 :=
    match settled with
    | Resolved response => setOutcome response st
    | Rejected error =>
        if String.eqb (errorName error) "AbortError"
        then onLogPartial LevelWarn "Analysis canceled by user." now st
        else onLogPartial LevelError ("Analysis error: " +:+ errorMessage error) now st
    end in
  setProgress None (setIsLoading false st1).

(** The promise returned by a call of [handleAnalyze] that stopped at [step]:
    settled at once after a [return], pending at the [await].  The body has no
    [throw] outside its [try], so the promise is never rejected. *)
Definition handleAnalyzePromise (step : HandleStep) : option (Settlement unit) :=
  match step with
  | Returned => Some (Resolved tt)
  | Awaiting _ => None
  end.

(** [handleStop]: whether [cancel] is sent to the service. *)
Definition handleStop (st : HookState) : bool :=
  isLoading st && serviceRef st.

(** The values of [useAppStore] that an analysis reads. *)
Record AppStore : Type := mkAppStore {
  filesInput : string;
  formattingOptions : FormattingOptions;
  includePattern : string;
  excludePattern : string
}.

Definition setFormattingOptions (f : FormattingOptions -> FormattingOptions)
    (store : AppStore) : AppStore :=
  {| filesInput := filesInput store; formattingOptions := f (formattingOptions store);
     includePattern := includePattern store; excludePattern := excludePattern store |}.

(** A request the worker is working on, and whether [abort] was called on its
    controller. *)
Record Job : Type := mkJob {
  jobRequest : AnalyzeRequest;
  jobAborted : bool
}.

(** The page: the hook, the store, the worker's flag, whether the call of
    [init] is still out, and the jobs handed to the worker and not yet
    settled (the jobs that are Running). *)
Record Page : Type := mkPage {
  hook : HookState;
  store : AppStore;
  workerInitialized : bool;
  initPending : bool;
  running : list Job
}.

Inductive Event : Type :=
| ClickAnalyze (now : Z)
| ClickStop
| EditOption (optionKey : string) (checked : CheckedState)
| EditGroup (keys : list string) (checked : CheckedState)
| ApplyPreset (presetOptions : FormattingOptions)
| EditFilesInput (text : string)
| InitSettled (ok : option JsError) (now : Z)
| ProgressReported (p : ProgressData)
| LogReported (log : LogEntry)
| AnalyzeSettled (project : ProjectOutcome) (now : Z).

Definition withHook (h : HookState) (pg : Page) : Page :=
  {| hook := h; store := store pg; workerInitialized := workerInitialized pg;
     initPending := initPending pg; running := running pg |}.

Definition withStore (s : AppStore) (pg : Page) : Page :=
  {| hook := hook pg; store := s; workerInitialized := workerInitialized pg;
     initPending := initPending pg; running := running pg |}.

Section Page.

Variable parseFileList : string -> list FileContent + string.
Variable calculateTokenImpact :
  list SourceFile -> FormattingOptions -> FormattingOptionsTokenImpact.

(** One event of the page; [None] when the event cannot happen in the state
    (a message of the worker without a job, a second answer to [init]).
    Every event is handled by the callbacks of the render that follows the
    previous event, as for the clicks and key strokes of a user; a request
    made through an older callback is [requestAnalyze] below.  Under these
    events at most one job runs, so that stopping marks that job. *)
Definition step (pg : Page) (ev : Event) : option Page :=
  match ev with
  | ClickAnalyze now =>
      (* App's [handleAnalyze]: the store values of the current render *)
      let s := store pg in
      let '(h, stopped) :=
        handleAnalyzeBegin (filesInput s) (formattingOptions s)
          (includePattern s) (excludePattern s) now (hook pg) in
      Some {| hook := h; store := s; workerInitialized := workerInitialized pg;
              initPending := initPending pg;
              running :=
                match stopped with
                | Returned => running pg
                | Awaiting request =>
                    running pg ++ [{| jobRequest := request; jobAborted := false |}]
                end |}
  | ClickStop =>
      if handleStop (hook pg)
      then Some {| hook := hook pg; store := store pg;
                   workerInitialized := workerInitialized pg;
                   initPending := initPending pg;
                   running :=
                     map (fun j => {| jobRequest := jobRequest j; jobAborted := true |})
                         (running pg) |}
      else Some pg
  | EditOption optionKey checked =>
      Some (withStore (setFormattingOptions (handleChange optionKey checked) (store pg)) pg)
  | EditGroup keys checked =>
      Some (withStore (setFormattingOptions (handleGroupChange keys checked) (store pg)) pg)
  | ApplyPreset presetOptions =>
      Some (withStore (setFormattingOptions (fun _ => presetOptions) (store pg)) pg)
  | EditFilesInput text =>
      Some (withStore {| filesInput := text;
                         formattingOptions := formattingOptions (store pg);
                         includePattern := includePattern (store pg);
                         excludePattern := excludePattern (store pg) |} pg)
  | InitSettled ok now =>
      if initPending pg then
        match ok with
        | None =>
            Some {| hook := initializeWorker (Resolved tt) now (hook pg);
                    store := store pg; workerInitialized := true;
                    initPending := false; running := running pg |}
        | Some error =>
            Some {| hook := initializeWorker (Rejected error) now (hook pg);
                    store := store pg; workerInitialized := workerInitialized pg;
                    initPending := false; running := running pg |}
        end
      else None
  | ProgressReported p =>
      match running pg with
      | [] => None
      | _ :: _ => Some (withHook (setProgress (Some p) (hook pg)) pg)
      end
  | LogReported log =>
      match running pg with
      | [] => None
      | _ :: _ => Some (withHook (onLog log (hook pg)) pg)
      end
  | AnalyzeSettled project now =>
      match running pg with
      | [] => None
      | job :: rest =>
          let settled :=
            workerAnalyze parseFileList calculateTokenImpact
              (workerInitialized pg) (jobRequest job) project in
          Some {| hook := handleAnalyzeResume settled now (hook pg);
                  store := store pg; workerInitialized := workerInitialized pg;
                  initPending := initPending pg; running := rest |}
      end
  end.

Fixpoint run (pg : Page) (evs : list Event) : option Page :=
  match evs with
  | [] => Some pg
  | ev :: evs' =>
      match step pg ev with
      | Some pg' => run pg' evs'
      | None => None
      end
  end.

End Page.

(** The page right after mount, for a given content of the store. *)
Definition mountedPage (s : AppStore) : Page :=
  {| hook := mountedHook; store := s; workerInitialized := false;
     initPending := true; running := [] |}.

(** A run request made through the callback of a given render: [seen] holds
    the store values and the two flags that render captured.  The request acts
    on the page as it is at the call, which may be later than that render. *)
Definition requestAnalyze (seenInitialized seenLoading : bool) (seen : AppStore)
    (now : Z) (pg : Page) : Page :=
  let '(h, stopped) :=
    handleAnalyzeCall seenInitialized seenLoading
      (filesInput seen) (formattingOptions seen)
      (includePattern seen) (excludePattern seen) now (hook pg) in
  {| hook := h; store := store pg; workerInitialized := workerInitialized pg;
     initPending := initPending pg;
     running :=
       match stopped with
       | Returned => running pg
       | Awaiting request =>
           running pg ++ [{| jobRequest := request; jobAborted := false |}]
       end |}.

(** Events that leave a running job running: everything but its settlement. *)
Definition keepsJob (ev : Event) : bool :=
  match ev with
  | AnalyzeSettled _ _ => false
  | _ => true
  end.

(** The log entries a list of events hands to [onLog]. *)
Definition reportedLogs (evs : list Event) : list LogEntry :=
  flat_map (fun ev => match ev with LogReported log => [log] | _ => [] end) evs.

(** A page with no job, ready to accept a run request. *)
Definition ready (pg : Page) : Prop :=
  isInitialized (hook pg) = true /\ serviceRef (hook pg) = true
  /\ isLoading (hook pg) = false /\ running pg = []
  /\ workerInitialized pg = true /\ initPending pg = false.

(** A page whose only running job carries [request]. *)
Definition inFlight (request : AnalyzeRequest) (pg : Page) : Prop :=
  isInitialized (hook pg) = true /\ serviceRef (hook pg) = true
  /\ isLoading (hook pg) = true /\ workerInitialized pg = true
  /\ initPending pg = false
  /\ exists aborted, running pg = [{| jobRequest := request; jobAborted := aborted |}].

(** What holds of every page reached from mount: the service is there, and
    [isLoading] tells whether a job is running, of which there is then one. *)
Definition singleFlight (pg : Page) : Prop :=
  serviceRef (hook pg) = true
  /\ (isInitialized (hook pg) = false -> isLoading (hook pg) = false)
  /\ (isLoading (hook pg) = true -> exists job, running pg = [job])
  /\ (isLoading (hook pg) = false -> running pg = []).

(** Stand-ins for the two library functions, used to run the model on
    concrete inputs: every text parses to the empty file list, and the impact
    table has one entry, for [showOutgoing], which is the number of analysed
    files when the option is selected and 0 otherwise. *)
Definition sampleParse (text : string) : list FileContent + string := inl [].

Definition sampleImpact (files : list SourceFile) (options : FormattingOptions)
    : FormattingOptionsTokenImpact :=
  {| impactOptions :=
       Some {[ "showOutgoing" :=
                 if keyChecked options "showOutgoing" then Z.of_nat (length files) else 0%Z ]};
     impactDisplayFilters := None |}.

Definition sampleOptions : FormattingOptions :=
  {| preset := Some PresetDefault; flags := ∅; displayFilters := None |}.

Definition sampleStore : AppStore :=
  {| filesInput := "[]"; formattingOptions := sampleOptions;
     includePattern := "**/*"; excludePattern := "" |}.

Definition sampleFile : SourceFile :=
  {| sourcePath := "a.ts"; sourceAst := Some 1%N; sourceLanguage := None |}.

(** A ready page with an empty history, and one that still shows the result
    and the log of a finished job. *)
Definition readyPage : Page :=
  {| hook := setIsInitialized true mountedHook; store := sampleStore;
     workerInitialized := true; initPending := false; running := [] |}.

Definition staleReadyPage : Page :=
  {| hook :=
       {| isInitialized := true; isLoading := false;
          analysisResult := Some [sampleFile]; progress := None;
          logs := [ {| level := LevelInfo; message := "Analysis worker ready."; timestamp := 0 |} ];
          analysisTimeCell := Some 12%Z;
          tokenImpactCell := Some (sampleImpact [sampleFile] sampleOptions);
          serviceRef := true |};
     store := sampleStore; workerInitialized := true; initPending := false;
     running := [] |}.

(* ===================================================================== *)
(** * Further code of the repository *)
(* ===================================================================== *)

(** A string made of white space only (the empty string included). *)
Fixpoint isBlank (s : string) : bool :=
  match s with
  | EmptyString => true
  | String c t => isWhiteSpace c && isBlank t
  end.

(** ** Worker: the pattern lists and the language objects *)




(** [sanitizeAnalysisResult] with the language objects held by reference.  A
    file points to its language object in a store; several files, and the
    analyzer itself, may point to the same object. *)
Record FileObject : Type := mkFileObject {
  objPath : string;
  objAst : option N;
  objLanguage : option positive
}.

(** One turn of [result.forEach]: the parse tree is deleted from the file; a
    file with a language gets a fresh copy of the object, stripped of its two
    handles, and points to the copy.  (A reference to nothing does not occur
    in a JavaScript heap; such a file only loses its tree.) *)
Definition sanitizeFileObject
    (acc : gmap positive Language * list FileObject) (file : FileObject)
    : gmap positive Language * list FileObject :=
  let '(heap, done) := acc in
  match objLanguage file with
  | Some ref =>
      match heap !! ref with
      | Some language =>
          let copy := fresh (dom heap) in
          (<[copy := sanitizeLanguage language]> heap,
           done ++ [{| objPath := objPath file; objAst := None; objLanguage := Some copy |}])
      | None =>
          (heap, done ++ [{| objPath := objPath file; objAst := None;
                             objLanguage := objLanguage file |}])
      end
  | None =>
      (heap, done ++ [{| objPath := objPath file; objAst := None; objLanguage := None |}])
  end.

Definition sanitizeInHeap (heap : gmap positive Language) (files : list FileObject)
    : gmap positive Language * list FileObject :=
  fold_left sanitizeFileObject files (heap, []).

(** The record a file object stands for in a given heap. *)
Definition readFile (heap : gmap positive Language) (file : FileObject) : SourceFile :=
  {| sourcePath := objPath file;
     sourceAst := objAst file;
     sourceLanguage :=
       match objLanguage file with
       | Some ref => heap !! ref
       | None => None
       end |}.

(** No file points outside the heap. *)
Definition wellPointed (heap : gmap positive Language) (files : list FileObject) : Prop :=
  forall file ref, In file files -> objLanguage file = Some ref -> is_Some (heap !! ref).

(** ** App: the symbol counter of the options header *)

Record CodeSymbol : Type := mkCodeSymbol {
  symbolKind : string;
  isExported : bool
}.

(** The property names every plain object inherits from [Object.prototype].
    Reading one of them from an object without an own property of that name
    gives the inherited function (for [__proto__], the prototype object),
    which is neither [null] nor [undefined]. *)
Definition objectPrototypeNames : list string :=
  [ "constructor"; "hasOwnProperty"; "isPrototypeOf"; "propertyIsEnumerable";
    "toLocaleString"; "toString"; "valueOf"; "__proto__";
    "__defineGetter__"; "__defineSetter__"; "__lookupGetter__"; "__lookupSetter__" ].

(** [filters[symbol.kind] ?? filters['*'] ?? true], as a truth value: the
    lookup [filters[symbol.kind]] is a plain property read, without
    [Object.hasOwn], so that a kind named like an inherited property and
    without an own entry reads a function, which is truthy. *)
Definition symbolShown (filters : gmap string bool) (symbol : CodeSymbol) : bool :=
  match filters !! symbolKind symbol with
  | Some b => b
  | None =>
      if existsb (String.eqb (symbolKind symbol)) objectPrototypeNames then true
      else
        match filters !! "*" with
        | Some b => b
        | None => true
        end
  end.

(** The memoised pair [(totalSymbols, visibleSymbols)]; the argument is the
    list of the [symbols] arrays of the files of [analysisResult], or [None]
    before any result. *)
Definition symbolCounts (fileSymbols : option (list (list CodeSymbol)))
    (options : FormattingOptions) : nat * nat :=
  match fileSymbols with
  | None => (0, 0)%nat
  | Some files =>
      let allSymbols := concat files in
      let total := length allSymbols in
      let visible1 :=
        if default false (flags options !! "showOnlyExports")
        then List.filter isExported allSymbols
        else allSymbols in
      let visible2 :=
        match displayFilters options with
        | Some filters => List.filter (symbolShown filters) visible1
        | None => visible1
        end in
      (total, length visible2)
  end.

(** ** LogViewer *)

Definition levelCode (l : LogLevel) : nat :=
  match l with LevelError => 0 | LevelWarn => 1 | LevelInfo => 2 | LevelDebug => 3 end.

Definition levelOfCode (n : nat) : LogLevel :=
  match n with 0 => LevelError | 1 => LevelWarn | 2 => LevelInfo | _ => LevelDebug end.

#[global] Instance LogLevel_eq_dec : EqDecision LogLevel.
Proof. solve_decision. Defined.

#[global] Instance LogLevel_countable : Countable LogLevel.
Proof. apply (inj_countable' levelCode levelOfCode). by intros []. Defined.

Definition LOG_LEVELS : list LogLevel := [LevelError; LevelWarn; LevelInfo; LevelDebug].

(** The initial [visibleLevels]: [new Set(LOG_LEVELS)]. *)
Definition initialVisibleLevels : gset LogLevel := list_to_set LOG_LEVELS.

Definition toggleLevel (lvl : LogLevel) (prev : gset LogLevel) : gset LogLevel :=
  if bool_decide (lvl ∈ prev) then prev ∖ {[ lvl ]} else prev ∪ {[ lvl ]}.

(** [logs.filter(log => visibleLevels.has(log.level))] *)
Definition filteredLogs (logEntries : list LogEntry) (visibleLevels : gset LogLevel)
    : list LogEntry :=
  List.filter (fun log => bool_decide (level log ∈ visibleLevels)) logEntries.

(** The paragraph shown in place of an empty list, if any. *)
Definition emptyNotice (logEntries : list LogEntry) (visibleLevels : gset LogLevel)
    : option string :=
  if (length (filteredLogs logEntries visibleLevels) =? 0)%nat
  then Some (if (length logEntries =? 0)%nat
             then "No logs yet. Click " +:+ String (ascii_of_nat 34) ("Analyze" +:+ String (ascii_of_nat 34) " to start.")
             else "No logs match the current filter.")
  else None.

(** Whether the copy button is rendered, and whether a click on it writes to
    the clipboard (only when some visible entry exists). *)
Definition copyButtonShown (logEntries : list LogEntry) : bool :=
  (0 <? length logEntries)%nat.

Definition copyWrites (logEntries : list LogEntry) (visibleLevels : gset LogLevel) : bool :=
  (0 <? length (filteredLogs logEntries visibleLevels))%nat.

(** ** The resizable sidebar *)

(** [Math.min(maxWidth, Math.max(minWidth, newWidth))].  The widths are
    numbers; [min] and [max] only compare them, so exact rationals stand for
    them.  [maxWidth] is the product [window.innerWidth * maxWidthPercent] as
    computed. *)
Definition clampWidth (maxWidth minWidth newWidth : QArith_base.Q) : QArith_base.Q :=
  Qminmax.Qmin maxWidth (Qminmax.Qmax minWidth newWidth).

Record SidebarState : Type := mkSidebarState {
  sidebarWidth : QArith_base.Q;
  isResizing : bool
}.

Inductive SidebarEvent : Type :=
| MouseDown
| MouseMove (clientX maxWidth : QArith_base.Q)
| MouseUp.

(** The listeners of [handleMouseDown]; [minWidth] is the hook's argument. *)
Definition sidebarStep (minWidth : QArith_base.Q) (st : SidebarState) (ev : SidebarEvent) : SidebarState :=
  match ev with
  | MouseDown => {| sidebarWidth := sidebarWidth st; isResizing := true |}
  | MouseMove clientX maxWidth =>
      if isResizing st
      then {| sidebarWidth := clampWidth maxWidth minWidth clientX; isResizing := true |}
      else st
  | MouseUp => {| sidebarWidth := sidebarWidth st; isResizing := false |}
  end.

(** The page after a failed [init]: nothing runs and nothing is shown. *)
Definition neverReady (pg : Page) : Prop :=
  isInitialized (hook pg) = false /\ initPending pg = false
  /\ running pg = [] /\ isLoading (hook pg) = false
  /\ analysisResult (hook pg) = None /\ analysisTimeCell (hook pg) = None
  /\ tokenImpactCell (hook pg) = None.

(** A parser stand-in that accepts the empty array only, and a ready page
    whose file text it rejects. *)
Definition strictParse (text : string) : list FileContent + string :=
  if String.eqb text "[]" then inl [] else inr "Unexpected token".

Definition badInputPage : Page :=
  withStore {| filesInput := "oops"; formattingOptions := sampleOptions;
               includePattern := "**/*"; excludePattern := "" |} readyPage.

(** A string of ASCII characters only.  On such strings [toLowerCase] and
    [trim] above are those of JavaScript. *)
Fixpoint asciiOnly (s : string) : bool :=
  match s with
  | EmptyString => true
  | String c t => (nat_of_ascii c <? 128)%nat && asciiOnly t
  end.

(** ** The options object, with the properties a computed key can reach *)

(** [FormattingOptions] above keeps the boolean options in a dictionary of
    their own.  The handlers write them through a computed key
    ([newOptions[key] = isChecked], [{ ..., [optionKey]: isChecked }]), and a
    key spelled [preset] or [displayFilters] reaches those two properties
    instead.  [OptionsObject] is the object with this made explicit: what the
    [preset] property and the [displayFilters] property can hold, and the
    other boolean properties. *)
Inductive PresetSlot : Type :=
| PresetUndefined
| PresetName (name : FormattingPreset)
| PresetBool (b : bool).

Inductive FiltersSlot : Type :=
| FiltersUndefined
| FiltersObject (filters : gmap string bool)
| FiltersBool (b : bool).

Record OptionsObject : Type := mkOptionsObject {
  presetSlot : PresetSlot;
  filtersSlot : FiltersSlot;
  flagProps : gmap string bool
}.

(** The property a computed key defines in an object literal,
    [{ ...obj, [key]: value }]. *)
Definition writeProperty (key : string) (value : bool) (obj : OptionsObject) : OptionsObject :=
  if String.eqb key "preset" then
    {| presetSlot := PresetBool value; filtersSlot := filtersSlot obj;
       flagProps := flagProps obj |}
  else if String.eqb key "displayFilters" then
    {| presetSlot := presetSlot obj; filtersSlot := FiltersBool value;
       flagProps := flagProps obj |}
  else
    {| presetSlot := presetSlot obj; filtersSlot := filtersSlot obj;
       flagProps := <[key := value]> (flagProps obj) |}.

(** [{ ...prev, preset: undefined }] *)
Definition clearPreset (prev : OptionsObject) : OptionsObject :=
  {| presetSlot := PresetUndefined; filtersSlot := filtersSlot prev;
     flagProps := flagProps prev |}.

(** [{ ...(prev.displayFilters ?? {}) }]: the entries of the filter object;
    spreading [undefined ?? {}] or a boolean gives no entry. *)
Definition spreadFilters (slot : FiltersSlot) : gmap string bool :=
  match slot with
  | FiltersObject filters => filters
  | FiltersUndefined | FiltersBool _ => ∅
  end.

(** The updater of [handleChange] on the object. *)
Definition handleChangeObject (optionKey : string) (checked : CheckedState)
    (prev : OptionsObject) : OptionsObject :=
  let isChecked := isCheckedTrue checked in
  if startsWith optionKey filterPrefix then
    let kind := kindOf optionKey in
    {| presetSlot := PresetUndefined;
       filtersSlot := FiltersObject (<[kind := isChecked]> (spreadFilters (filtersSlot prev)));
       flagProps := flagProps prev |}
  else writeProperty optionKey isChecked (clearPreset prev).

(** The assignment [dict[key] = value] on a plain object.  For the key
    [__proto__] without an own property of that name the assignment reaches
    the setter inherited from [Object.prototype], which ignores a boolean: no
    entry is made. *)
Definition assignEntry (key : string) (value : bool) (dict : gmap string bool)
    : gmap string bool :=
  if String.eqb key "__proto__" then
    match dict !! key with
    | Some _ => <[key := value]> dict
    | None => dict
    end
  else <[key := value]> dict.

(** The assignment [newOptions[key] = value]. *)
Definition assignOption (key : string) (value : bool) (obj : OptionsObject) : OptionsObject :=
  if String.eqb key "preset" then
    {| presetSlot := PresetBool value; filtersSlot := filtersSlot obj;
       flagProps := flagProps obj |}
  else if String.eqb key "displayFilters" then
    {| presetSlot := presetSlot obj; filtersSlot := FiltersBool value;
       flagProps := flagProps obj |}
  else
    {| presetSlot := presetSlot obj; filtersSlot := filtersSlot obj;
       flagProps := assignEntry key value (flagProps obj) |}.

(** One turn of the key loop on the object: the loop state is [newOptions]
    and [newDisplayFilters]. *)
Definition assignProperty (value : bool)
    (acc : OptionsObject * gmap string bool) (key : string)
    : OptionsObject * gmap string bool :=
  let '(newOptions, newDisplayFilters) := acc in
  if startsWith key filterPrefix
  then (newOptions, assignEntry (kindOf key) value newDisplayFilters)
  else (assignOption key value newOptions, newDisplayFilters).

(** The updater of [handleGroupChange] on the object; the last statement is
    [newOptions.displayFilters = newDisplayFilters]. *)
Definition handleGroupChangeObject (keys : list string) (checked : CheckedState)
    (prev : OptionsObject) : OptionsObject :=
  let isChecked := isCheckedTrue checked in
  let newOptions := clearPreset prev in
  let newDisplayFilters := spreadFilters (filtersSlot prev) in
  let '(newOptions, newDisplayFilters) :=
    fold_left (assignProperty isChecked) keys (newOptions, newDisplayFilters) in
  {| presetSlot := presetSlot newOptions;
     filtersSlot := FiltersObject newDisplayFilters;
     flagProps := flagProps newOptions |}.

(** The stored entry of a display-filter kind, and of an option key. *)
Definition filterEntryObject (obj : OptionsObject) (kind : string) : option bool :=
  match filtersSlot obj with
  | FiltersObject filters => filters !! kind
  | FiltersUndefined | FiltersBool _ => None
  end.

Definition entryOfObject (obj : OptionsObject) (key : string) : option bool :=
  if startsWith key filterPrefix
  then filterEntryObject obj (kindOf key)
  else flagProps obj !! key.

(** The record that an object with a well-typed [preset] and
    [displayFilters] stands for. *)
Definition recordOf (obj : OptionsObject) : FormattingOptions :=
  {| preset := match presetSlot obj with PresetName name => Some name | _ => None end;
     flags := flagProps obj;
     displayFilters :=
       match filtersSlot obj with FiltersObject filters => Some filters | _ => None end |}.

(** The checkbox value that stands for a boolean. *)
Definition checkedOf (value : bool) : CheckedState :=
  if value then Checked else Unchecked.

(** An object as a preset gives it. *)
Definition sampleObject : OptionsObject :=
  {| presetSlot := PresetName PresetDefault; filtersSlot := FiltersUndefined;
     flagProps := ∅ |}.

(* ===================================================================== *)
(** * Properties *)
(* ===================================================================== *)

(** ** Strings *)

Lemma prefix_append (p k : string) : String.prefix p (p +:+ k) = true.
Proof.
  induction p as [|c p IH]; simpl.
  - by destruct k.
  - destruct (ascii_dec c c) as [_|Hne]; [exact IH | by destruct Hne].
Qed.

Lemma substring_whole (s : string) : String.substring 0 (String.length s) s = s.
Proof. induction s as [|c s IH]; simpl; [done | by rewrite IH]. Qed.

Lemma substringFrom_append (p k : string) :
  substringFrom (p +:+ k) (String.length p) = k.
Proof.
  unfold substringFrom.
  induction p as [|c p IH]; simpl.
  - rewrite Nat.sub_0_r. apply substring_whole.
  - exact IH.
Qed.

Lemma prefix_split (p s : string) :
  String.prefix p s = true -> s = p +:+ substringFrom s (String.length p).
Proof.
  revert s. induction p as [|c p IH]; intros s H; simpl.
  - unfold substringFrom. simpl. rewrite Nat.sub_0_r. by rewrite substring_whole.
  - destruct s as [|d s]; simpl in H; [done|].
    destruct (ascii_dec c d) as [->|]; [|done].
    change (String d s = String d (p +:+ substringFrom s (String.length p))).
    f_equal. apply (IH s H).
Qed.

Lemma startsWith_toFilter (kind : string) : startsWith (toFilter kind) filterPrefix = true.
Proof. apply prefix_append. Qed.

Lemma kindOf_toFilter (kind : string) : kindOf (toFilter kind) = kind.
Proof. apply (substringFrom_append filterPrefix kind). Qed.

Lemma toFilter_kindOf (key : string) :
  startsWith key filterPrefix = true -> toFilter (kindOf key) = key.
Proof. intros H. symmetry. apply (prefix_split filterPrefix key H). Qed.

Lemma includes_empty (hay : string) : includes hay "" = true.
Proof. by destruct hay. Qed.

Lemma includes_nil (needle : string) :
  includes "" needle = String.prefix needle "" || false.
Proof. reflexivity. Qed.

Lemma includes_cons (c : ascii) (hay needle : string) :
  includes (String c hay) needle
  = String.prefix needle (String c hay) || includes hay needle.
Proof. reflexivity. Qed.

(** [includes] is substring containment. *)
Lemma includes_substring (hay needle : string) :
  includes hay needle = true <-> exists pre post, hay = pre +:+ needle +:+ post.
Proof.
  split.
  - induction hay as [|c hay IH].
    + rewrite includes_nil, orb_true_iff.
      intros [H | H]; [|done]. exists "", (substringFrom "" (String.length needle)).
      apply (prefix_split needle "" H).
    + rewrite includes_cons, orb_true_iff. intros [H | H].
      * exists "", (substringFrom (String c hay) (String.length needle)).
        apply (prefix_split needle _ H).
      * destruct (IH H) as (pre & post & ->). by exists (String c pre), post.
  - intros (pre & post & ->). induction pre as [|c pre IH].
    + change ("" +:+ needle +:+ post) with (needle +:+ post).
      destruct (needle +:+ post) as [|d rest] eqn:Heq.
      * rewrite includes_nil, <- Heq, prefix_append. done.
      * rewrite includes_cons, <- Heq, prefix_append. done.
    + change (String c pre +:+ needle +:+ post) with (String c (pre +:+ needle +:+ post)).
      rewrite includes_cons, IH. apply orb_true_r.
Qed.

(** ** Flattening and the structural relations *)

Lemma getAllKeys_leafUnder (key : string) (item : OptionItem) :
  In key (getAllKeys item) <-> leafUnder key item.
Proof.
  induction item as [k | name children IH] using OptionItem_tree_ind.
  - simpl. split.
    + intros [-> | []]. constructor.
    + inversion 1. by left.
  - simpl. rewrite in_flat_map. rewrite List.Forall_forall in IH. split.
    + intros (child & Hin & Hk). econstructor; [exact Hin|]. by apply IH.
    + inversion 1 as [| ? ? child Hin Hk]; subst.
      exists child. split; [done|]. by apply IH.
Qed.

Lemma groupNamesOf_groupWithin (g : string) (item : OptionItem) :
  In g (groupNamesOf item) <-> groupWithin g item.
Proof.
  induction item as [k | name children IH] using OptionItem_tree_ind.
  - simpl. split; [done | inversion 1].
  - simpl. rewrite in_flat_map. rewrite List.Forall_forall in IH. split.
    + intros [-> | (child & Hin & Hg)]; [constructor|].
      eapply groupWithin_child; [exact Hin|]. by apply IH.
    + inversion 1 as [| ? ? child Hin Hg]; subst; [by left|].
      right. exists child. split; [done|]. by apply IH.
Qed.

Lemma dropNull_map_Some {A : Type} (l : list A) : dropNull (map Some l) = l.
Proof. induction l as [|x l IH]; simpl; [done | by rewrite IH]. Qed.

Lemma In_dropNull {A : Type} (x : A) (l : list (option A)) :
  In x (dropNull l) <-> In (Some x) l.
Proof.
  induction l as [|[y|] l IH]; simpl; [done | |].
  - rewrite IH. split; intros [H|H]; auto; left; congruence.
  - rewrite IH. split; [auto | intros [H|H]; [done | auto]].
Qed.

(** ** The group checkbox *)

Lemma keyChecked_isSelected (options : FormattingOptions) (key : string) :
  keyChecked options key = isSelected options key.
Proof.
  unfold keyChecked, isSelected, filterEntry, startsWith.
  destruct (String.prefix filterPrefix key); [|done].
  destruct (displayFilters options) as [filters|]; [|done].
  by destruct (filters !! kindOf key).
Qed.

(** C2. For every group of every forest and every option state, the group
    checkbox value [allChecked] is true exactly when [isSelected] holds for
    every leaf key under the group; [isSelected] counts an absent flag and an
    absent filter kind as selected. *)
Theorem allChecked_iff_every_leaf_selected
    (options : FormattingOptions) (name : string) (children : list OptionItem) :
  (allChecked options (Group name children) = true
   <-> forall key, leafUnder key (Group name children) -> isSelected options key = true)
  /\ (forall key, flags options !! key = None -> String.prefix filterPrefix key = false ->
        isSelected options key = true)
  /\ (forall kind, filterEntry options kind = None -> isSelected options (toFilter kind) = true).
Proof.
  split; [|split].
  - unfold allChecked. rewrite forallb_forall. split.
    + intros H key Hkey. rewrite <- keyChecked_isSelected.
      apply H. by apply getAllKeys_leafUnder.
    + intros H key Hkey. rewrite keyChecked_isSelected.
      apply H. by apply getAllKeys_leafUnder.
  - intros key Hnone Hreg. unfold isSelected. by rewrite Hreg, Hnone.
  - intros kind Hnone. unfold isSelected.
    change (String.prefix filterPrefix (toFilter kind)) with (startsWith (toFilter kind) filterPrefix).
    by rewrite startsWith_toFilter, kindOf_toFilter, Hnone.
Qed.

(** ** The empty query *)

Lemma filter_empty_query (labels : gmap string string) (item : OptionItem) :
  filter labels "" item = Some item.
Proof. destruct item; simpl; by rewrite includes_empty. Qed.

(** C6. With the empty query the filtered forest is the original forest: the
    memoised value returns it as it is, and the traversal itself keeps every
    item when run with the empty term. *)
Theorem filter_empty_query_identity
    (labels : gmap string string) (forest : list OptionItem) :
  filteredTree labels forest "" = forest
  /\ dropNull (map (filter labels (toLowerCase "")) forest) = forest.
Proof.
  split; [reflexivity|].
  simpl. rewrite <- (dropNull_map_Some forest) at 2. f_equal.
  apply map_ext. intros item. apply filter_empty_query.
Qed.

(** ** Token impact of a group *)

Lemma fold_left_impact_acc (table : FormattingOptionsTokenImpact)
    (keys : list string) (acc : Z) :
  fold_left (fun sum key => (sum + default 0 (keyImpact table key))%Z) keys acc
  = (acc + fold_left (fun sum key => (sum + default 0 (keyImpact table key))%Z) keys 0)%Z.
Proof.
  revert acc. induction keys as [|k keys IH]; intros acc; simpl.
  - lia.
  - rewrite (IH (acc + _)%Z), (IH (0 + _)%Z). lia.
Qed.

Lemma fold_left_impact_app (table : FormattingOptionsTokenImpact) (l1 l2 : list string) :
  fold_left (fun sum key => (sum + default 0 (keyImpact table key))%Z) (l1 ++ l2) 0%Z
  = (fold_left (fun sum key => (sum + default 0 (keyImpact table key))%Z) l1 0
     + fold_left (fun sum key => (sum + default 0 (keyImpact table key))%Z) l2 0)%Z.
Proof. rewrite fold_left_app. apply fold_left_impact_acc. Qed.

Lemma keyImpact_costEntry (table : FormattingOptionsTokenImpact) (key : string) :
  keyImpact table key = costEntry table key.
Proof. reflexivity. Qed.

Lemma impact_sum_subtreeCost (table : FormattingOptionsTokenImpact) (item : OptionItem) :
  fold_left (fun sum key => (sum + default 0 (keyImpact table key))%Z) (getAllKeys item) 0%Z
  = subtreeCost table item.
Proof.
  induction item as [k | name children IH] using OptionItem_tree_ind.
  - cbn [getAllKeys fold_left subtreeCost]. unfold costOf.
    change (costEntry table k) with (keyImpact table k).
    destruct (keyImpact table k); simpl; lia.
  - simpl. induction children as [|c cs IHcs]; simpl; [done|].
    apply List.Forall_cons_iff in IH as [Hc Hcs].
    rewrite fold_left_impact_app, Hc, (IHcs Hcs). done.
Qed.

(** C8, as the code has it.  For every cost table and every group node, the
    aggregate computed and shown for the group is the sum, over the leaf keys
    under it, of the key's cost in the table, a key without an entry counting
    for 0.  For a leaf node the row shows the cost of its key when the table
    has an entry for it, and nothing at all when it has none.  Without a
    table nothing is shown on any row.  (Keys that are not the name of a
    property every object inherits, such as [constructor].) *)
Theorem group_impact_is_sum_of_costs
    (table : FormattingOptionsTokenImpact) (name : string)
    (children : list OptionItem) (key : string) :
  (forall k, In k (getAllKeys (Group name children)) -> ~ In k objectPrototypeNames) ->
  ~ In key objectPrototypeNames ->
  groupTokenImpact (Some table) name children
    = Some (subtreeCost table (Group name children))
  /\ shownImpact (Some table) (Group name children)
     = Some (signedImpact (subtreeCost table (Group name children)))
  /\ shownImpact (Some table) (Leaf key)
     = match costEntry table key with
       | Some cost => Some (signedImpact cost)
       | None => None
       end
  /\ shownImpact None (Group name children) = None
  /\ shownImpact None (Leaf key) = None.
Proof.
  intros _ _.
  assert (H : groupTokenImpact (Some table) name children
              = Some (subtreeCost table (Group name children))).
  { unfold groupTokenImpact. f_equal. apply (impact_sum_subtreeCost table (Group name children)). }
  split_and!.
  - exact H.
  - unfold shownImpact, impactDisplay. by rewrite H.
  - reflexivity.
  - reflexivity.
  - reflexivity.
Qed.

Lemma group_impact_is_sum_of_costs_witness :
  groupTokenImpact
    (Some {| impactOptions := Some {[ "showOutgoing" := 12%Z ]};
             impactDisplayFilters := Some {[ "class" := (-5)%Z ]} |})
    "Sample" [Leaf "showOutgoing"; Group "Kinds" [Leaf "filter:class"]; Leaf "showIcons"]
  = Some (subtreeCost
            {| impactOptions := Some {[ "showOutgoing" := 12%Z ]};
               impactDisplayFilters := Some {[ "class" := (-5)%Z ]} |}
            (Group "Sample"
               [Leaf "showOutgoing"; Group "Kinds" [Leaf "filter:class"]; Leaf "showIcons"]))
  /\ subtreeCost
       {| impactOptions := Some {[ "showOutgoing" := 12%Z ]};
          impactDisplayFilters := Some {[ "class" := (-5)%Z ]} |}
       (Group "Sample"
          [Leaf "showOutgoing"; Group "Kinds" [Leaf "filter:class"]; Leaf "showIcons"])
     = 7%Z.
Proof.
  split; [|vm_compute; reflexivity].
  eapply proj1.
  apply (group_impact_is_sum_of_costs
           {| impactOptions := Some {[ "showOutgoing" := 12%Z ]};
              impactDisplayFilters := Some {[ "class" := (-5)%Z ]} |}
           "Sample"
           [Leaf "showOutgoing"; Group "Kinds" [Leaf "filter:class"]; Leaf "showIcons"]
           "showIcons").
  - simpl. intros k [<- | [<- | [<- | []]]]; vm_compute; intuition discriminate.
  - vm_compute. intuition discriminate.
Defined.

(** C8, as stated, fails on a leaf node: with a table that has no entry for
    [showIcons], the row of that leaf shows nothing, while the sum over its
    keys, an absent key counting for 0, is 0. *)
Lemma leaf_without_cost_shows_nothing :
  shownImpact (Some {| impactOptions := Some ∅; impactDisplayFilters := None |})
    (Leaf "showIcons") = None
  /\ subtreeCost {| impactOptions := Some ∅; impactDisplayFilters := None |}
       (Leaf "showIcons") = 0%Z
  /\ ~ (exists sign,
          shownImpact (Some {| impactOptions := Some ∅; impactDisplayFilters := None |})
            (Leaf "showIcons")
          = Some (sign, subtreeCost {| impactOptions := Some ∅; impactDisplayFilters := None |}
                          (Leaf "showIcons"))).
Proof.
  split_and!; [reflexivity | reflexivity |].
  intros [sign H]. discriminate H.
Qed.

(** ** Option updates *)

Local Ltac not_in_tail H := let Hin := fresh in intros Hin; apply H; by right.

Lemma assignKeys_fold (value : bool) (keys : list string)
    (fl df : gmap string bool) :
  let r := fold_left (assignKey value) keys (fl, df) in
  (forall k, In k keys -> startsWith k filterPrefix = false -> r.1 !! k = Some value)
  /\ (forall k, In k keys -> startsWith k filterPrefix = true -> r.2 !! kindOf k = Some value)
  /\ (forall k, ~ In k keys -> r.1 !! k = fl !! k)
  /\ (forall kind, ~ In (toFilter kind) keys -> r.2 !! kind = df !! kind).
Proof.
  revert fl df. induction keys as [|key keys IH]; intros fl df; cbv zeta.
  - simpl. repeat split; intros; tauto.
  - change (fold_left (assignKey value) (key :: keys) (fl, df))
      with (fold_left (assignKey value) keys (assignKey value (fl, df) key)).
    destruct (startsWith key filterPrefix) eqn:Hkey.
    + replace (assignKey value (fl, df) key) with (fl, <[kindOf key := value]> df)
        by (unfold assignKey; by rewrite Hkey).
      destruct (IH fl (<[kindOf key := value]> df)) as (H1 & H2 & H3 & H4).
      repeat split.
      * intros k [-> | Hin] Hk; [congruence | by apply H1].
      * intros k [-> | Hin] Hk; [|by apply H2].
        destruct (in_dec String.string_dec (toFilter (kindOf k)) keys) as [Hin | Hout].
        -- rewrite (toFilter_kindOf k Hk) in Hin. by apply H2.
        -- rewrite (H4 _ Hout). apply lookup_insert_eq.
      * intros k Hk. apply H3. not_in_tail Hk.
      * intros kind Hkind. rewrite H4 by not_in_tail Hkind.
        apply lookup_insert_ne. intros Heq. apply Hkind. left.
        rewrite <- Heq. symmetry. by apply toFilter_kindOf.
    + replace (assignKey value (fl, df) key) with (<[key := value]> fl, df)
        by (unfold assignKey; by rewrite Hkey).
      destruct (IH (<[key := value]> fl) df) as (H1 & H2 & H3 & H4).
      repeat split.
      * intros k [-> | Hin] Hk; [|by apply H1].
        destruct (in_dec String.string_dec k keys) as [Hin | Hout]; [by apply H1|].
        rewrite (H3 _ Hout). apply lookup_insert_eq.
      * intros k [-> | Hin] Hk; [congruence | by apply H2].
      * intros k Hk. rewrite H3 by not_in_tail Hk. apply lookup_insert_ne.
        intros ->. apply Hk. by left.
      * intros kind Hkind. apply H4. not_in_tail Hkind.
Qed.

Lemma assignKeys_spec (keys : list string) (value : bool) (prev : FormattingOptions) :
  let st := assignKeys keys value prev in
  (forall k, In k keys -> entryOf st k = Some value)
  /\ preset st = None
  /\ (forall k, ~ In k keys -> flags st !! k = flags prev !! k)
  /\ (forall kind, ~ In (toFilter kind) keys -> filterEntry st kind = filterEntry prev kind).
Proof.
  unfold assignKeys.
  pose proof (assignKeys_fold value keys (flags prev) (default ∅ (displayFilters prev)))
    as (H1 & H2 & H3 & H4).
  destruct (fold_left (assignKey value) keys (flags prev, default ∅ (displayFilters prev)))
    as [fl df] eqn:Hfold.
  simpl in *. repeat split.
  - intros k Hin. unfold entryOf, filterEntry. simpl.
    destruct (startsWith k filterPrefix) eqn:Hk; [by apply H2 | by apply H1].
  - exact H3.
  - intros kind Hkind. unfold filterEntry. simpl. rewrite (H4 _ Hkind).
    destruct (displayFilters prev); [done | apply lookup_empty].
Qed.

Lemma handleChange_spec (key : string) (checked : CheckedState) (prev : FormattingOptions) :
  let st := handleChange key checked prev in
  entryOf st key = Some (isCheckedTrue checked)
  /\ preset st = None
  /\ (forall k, k <> key -> flags st !! k = flags prev !! k)
  /\ (forall kind, toFilter kind <> key -> filterEntry st kind = filterEntry prev kind).
Proof.
  unfold handleChange, entryOf, filterEntry.
  destruct (startsWith key filterPrefix) eqn:Hkey; simpl; rewrite ?Hkey.
  - repeat split; [apply lookup_insert_eq|].
    intros kind Hkind. rewrite lookup_insert_ne.
    + destruct (displayFilters prev); [done | apply lookup_empty].
    + intros Heq. apply Hkind. rewrite <- Heq. by apply toFilter_kindOf.
  - repeat split; [apply lookup_insert_eq|].
    intros k Hk. by apply lookup_insert_ne.
Qed.

(** ** The toggles on the options object *)

Lemma spreadFilters_recordOf (obj : OptionsObject) :
  default ∅ (displayFilters (recordOf obj)) = spreadFilters (filtersSlot obj).
Proof. unfold recordOf. simpl. by destruct (filtersSlot obj). Qed.

Lemma entryOfObject_recordOf (obj : OptionsObject) (key : string) :
  entryOfObject obj key = entryOf (recordOf obj) key.
Proof.
  unfold entryOfObject, entryOf, filterEntryObject, filterEntry, recordOf. simpl.
  destruct (startsWith key filterPrefix); [|done]. by destruct (filtersSlot obj).
Qed.

Lemma filterEntryObject_recordOf (obj : OptionsObject) (kind : string) :
  filterEntryObject obj kind = filterEntry (recordOf obj) kind.
Proof. unfold filterEntryObject, filterEntry, recordOf. simpl. by destruct (filtersSlot obj). Qed.

Lemma writeProperty_option_key (key : string) (value : bool) (obj : OptionsObject) :
  key <> "preset" -> key <> "displayFilters" ->
  writeProperty key value obj
  = {| presetSlot := presetSlot obj; filtersSlot := filtersSlot obj;
       flagProps := <[key := value]> (flagProps obj) |}.
Proof.
  intros H1 H2. unfold writeProperty.
  apply String.eqb_neq in H1, H2. by rewrite H1, H2.
Qed.

Lemma assignEntry_plain (key : string) (value : bool) (dict : gmap string bool) :
  key <> "__proto__" -> assignEntry key value dict = <[key := value]> dict.
Proof. intros H. unfold assignEntry. apply String.eqb_neq in H. by rewrite H. Qed.

Lemma assignOption_option_key (key : string) (value : bool) (obj : OptionsObject) :
  key <> "preset" -> key <> "displayFilters" -> key <> "__proto__" ->
  assignOption key value obj
  = {| presetSlot := presetSlot obj; filtersSlot := filtersSlot obj;
       flagProps := <[key := value]> (flagProps obj) |}.
Proof.
  intros H1 H2 H3. unfold assignOption. rewrite (assignEntry_plain _ _ _ H3).
  apply String.eqb_neq in H1, H2. by rewrite H1, H2.
Qed.

(** On option keys the object and the record move together. *)
Lemma handleChangeObject_recordOf (key : string) (checked : CheckedState)
    (obj : OptionsObject) :
  key <> "preset" -> key <> "displayFilters" ->
  recordOf (handleChangeObject key checked obj) = handleChange key checked (recordOf obj)
  /\ presetSlot (handleChangeObject key checked obj) = PresetUndefined.
Proof.
  intros H1 H2. unfold handleChangeObject, handleChange.
  destruct (startsWith key filterPrefix).
  - rewrite spreadFilters_recordOf. done.
  - rewrite (writeProperty_option_key key _ _ H1 H2). done.
Qed.

Lemma assignProperty_fold (value : bool) (keys : list string) :
  ~ In "preset" keys -> ~ In "displayFilters" keys ->
  ~ In "__proto__" keys -> ~ In (toFilter "__proto__") keys ->
  forall (obj : OptionsObject) (df : gmap string bool),
    let r := fold_left (assignProperty value) keys (obj, df) in
    (flagProps r.1, r.2) = fold_left (assignKey value) keys (flagProps obj, df)
    /\ presetSlot r.1 = presetSlot obj.
Proof.
  induction keys as [|key keys IH]; intros Hp Hd Ho Hf obj df; cbv zeta; [done|].
  change (fold_left (assignProperty value) (key :: keys) (obj, df))
    with (fold_left (assignProperty value) keys (assignProperty value (obj, df) key)).
  change (fold_left (assignKey value) (key :: keys) (flagProps obj, df))
    with (fold_left (assignKey value) keys (assignKey value (flagProps obj, df) key)).
  assert (Hp' : ~ In "preset" keys) by (intros H; apply Hp; by right).
  assert (Hd' : ~ In "displayFilters" keys) by (intros H; apply Hd; by right).
  assert (Ho' : ~ In "__proto__" keys) by (intros H; apply Ho; by right).
  assert (Hf' : ~ In (toFilter "__proto__") keys) by (intros H; apply Hf; by right).
  assert (Hk1 : key <> "preset") by (intros ->; apply Hp; by left).
  assert (Hk2 : key <> "displayFilters") by (intros ->; apply Hd; by left).
  assert (Hk3 : key <> "__proto__") by (intros ->; apply Ho; by left).
  destruct (startsWith key filterPrefix) eqn:Hkey.
  - assert (Hk4 : kindOf key <> "__proto__").
    { intros Hkind. apply Hf. left. by rewrite <- Hkind, (toFilter_kindOf key Hkey). }
    replace (assignProperty value (obj, df) key) with (obj, <[kindOf key := value]> df)
      by (unfold assignProperty; by rewrite Hkey, (assignEntry_plain _ _ _ Hk4)).
    replace (assignKey value (flagProps obj, df) key)
      with (flagProps obj, <[kindOf key := value]> df)
      by (unfold assignKey; by rewrite Hkey).
    apply (IH Hp' Hd' Ho' Hf' obj).
  - replace (assignProperty value (obj, df) key)
      with ({| presetSlot := presetSlot obj; filtersSlot := filtersSlot obj;
               flagProps := <[key := value]> (flagProps obj) |}, df)
      by (unfold assignProperty;
          by rewrite Hkey, (assignOption_option_key key value obj Hk1 Hk2 Hk3)).
    replace (assignKey value (flagProps obj, df) key)
      with (<[key := value]> (flagProps obj), df)
      by (unfold assignKey; by rewrite Hkey).
    destruct (IH Hp' Hd' Ho' Hf'
                {| presetSlot := presetSlot obj; filtersSlot := filtersSlot obj;
                   flagProps := <[key := value]> (flagProps obj) |} df) as [Hfold Hpreset].
    split; [exact Hfold | exact Hpreset].
Qed.

Lemma handleGroupChangeObject_recordOf (keys : list string) (checked : CheckedState)
    (obj : OptionsObject) :
  ~ In "preset" keys -> ~ In "displayFilters" keys ->
  ~ In "__proto__" keys -> ~ In (toFilter "__proto__") keys ->
  recordOf (handleGroupChangeObject keys checked obj)
  = handleGroupChange keys checked (recordOf obj)
  /\ presetSlot (handleGroupChangeObject keys checked obj) = PresetUndefined.
Proof.
  intros Hp Hd Ho Hf. unfold handleGroupChangeObject, handleGroupChange, assignKeys.
  rewrite spreadFilters_recordOf.
  destruct (assignProperty_fold (isCheckedTrue checked) keys Hp Hd Ho Hf
              (clearPreset obj) (spreadFilters (filtersSlot obj))) as [Hfold Hpreset].
  cbv zeta in Hfold, Hpreset.
  change (flags (recordOf obj)) with (flagProps (clearPreset obj)).
  rewrite <- Hfold.
  destruct (fold_left (assignProperty (isCheckedTrue checked)) keys
              (clearPreset obj, spreadFilters (filtersSlot obj))) as [o df].
  simpl in *. rewrite Hpreset. done.
Qed.

(** C7, as the code has it.  For every state, every key list and every
    boolean value, where no key is spelled like the [preset] or the
    [displayFilters] property and none addresses [__proto__]: the group
    toggle yields a state in which every listed key holds that value, the
    preset is undefined, and the flag and display-filter entries of the keys
    outside the list are unchanged; the single toggle does the same for its
    one key.  An [indeterminate] click acts as an unchecked one. *)
Theorem toggles_on_option_keys
    (prev : OptionsObject) (keys : list string) (key : string) (value : bool) :
  ~ In "preset" keys -> ~ In "displayFilters" keys ->
  ~ In "__proto__" keys -> ~ In (toFilter "__proto__") keys ->
  key <> "preset" -> key <> "displayFilters" ->
  let many := handleGroupChangeObject keys (checkedOf value) prev in
  let one := handleChangeObject key (checkedOf value) prev in
  ((forall k, In k keys -> entryOfObject many k = Some value)
   /\ presetSlot many = PresetUndefined
   /\ (forall k, ~ In k keys -> flagProps many !! k = flagProps prev !! k)
   /\ (forall kind, ~ In (toFilter kind) keys ->
         filterEntryObject many kind = filterEntryObject prev kind))
  /\ (entryOfObject one key = Some value
      /\ presetSlot one = PresetUndefined
      /\ (forall k, k <> key -> flagProps one !! k = flagProps prev !! k)
      /\ (forall kind, toFilter kind <> key ->
            filterEntryObject one kind = filterEntryObject prev kind))
  /\ handleGroupChangeObject keys Indeterminate prev
     = handleGroupChangeObject keys Unchecked prev
  /\ handleChangeObject key Indeterminate prev = handleChangeObject key Unchecked prev.
Proof.
  intros Hp Hd Ho Hf Hk1 Hk2. cbv zeta.
  assert (Hvalue : isCheckedTrue (checkedOf value) = value) by by destruct value.
  destruct (handleGroupChangeObject_recordOf keys (checkedOf value) prev Hp Hd Ho Hf)
    as [Hmany Hmany_preset].
  destruct (handleChangeObject_recordOf key (checkedOf value) prev Hk1 Hk2)
    as [Hone Hone_preset].
  destruct (assignKeys_spec keys (isCheckedTrue (checkedOf value)) (recordOf prev))
    as (Ha1 & _ & Ha3 & Ha4).
  destruct (handleChange_spec key (checkedOf value) (recordOf prev))
    as (Hc1 & _ & Hc3 & Hc4).
  assert (Hgoal : forall x : option bool,
            x = Some (isCheckedTrue (checkedOf value)) -> x = Some value).
  { intros x ->. by rewrite Hvalue. }
  split_and!; try done.
  - intros k Hk. apply Hgoal. rewrite entryOfObject_recordOf, Hmany. by apply Ha1.
  - intros k Hk.
    change (flagProps (handleGroupChangeObject keys (checkedOf value) prev))
      with (flags (recordOf (handleGroupChangeObject keys (checkedOf value) prev))).
    rewrite Hmany. by apply Ha3.
  - intros kind Hkind. rewrite !filterEntryObject_recordOf, Hmany. by apply Ha4.
  - apply Hgoal. by rewrite entryOfObject_recordOf, Hone.
  - intros k Hk.
    change (flagProps (handleChangeObject key (checkedOf value) prev))
      with (flags (recordOf (handleChangeObject key (checkedOf value) prev))).
    rewrite Hone. by apply Hc3.
  - intros kind Hkind. rewrite !filterEntryObject_recordOf, Hone. by apply Hc4.
Qed.

Lemma toggles_on_option_keys_witness :
  entryOfObject
    (handleGroupChangeObject ["showOutgoing"; "filter:class"] (checkedOf true) sampleObject)
    "filter:class" = Some true
  /\ presetSlot
       (handleGroupChangeObject ["showOutgoing"; "filter:class"] (checkedOf true) sampleObject)
     = PresetUndefined.
Proof.
  destruct (toggles_on_option_keys sampleObject ["showOutgoing"; "filter:class"]
              "showIcons" true) as [(Hentry & Hpreset & _) _].
  - simpl. intros [H | [H | []]]; discriminate H.
  - simpl. intros [H | [H | []]]; discriminate H.
  - simpl. intros [H | [H | []]]; discriminate H.
  - simpl. intros [H | [H | []]]; discriminate H.
  - discriminate.
  - discriminate.
  - split; [|exact Hpreset]. apply Hentry. right. by left.
Defined.

(** C7, as stated, fails for a key spelled [preset]: the computed key reaches
    the [preset] property, which then holds the boolean instead of being
    undefined, after the group toggle as after the single one. *)
Lemma preset_key_keeps_preset_set :
  presetSlot (handleGroupChangeObject ["preset"] Checked sampleObject) = PresetBool true
  /\ presetSlot (handleChangeObject "preset" Checked sampleObject) = PresetBool true
  /\ presetSlot (handleGroupChangeObject ["preset"] Checked sampleObject) <> PresetUndefined
  /\ presetSlot (handleChangeObject "preset" Checked sampleObject) <> PresetUndefined.
Proof. split_and!; [reflexivity | reflexivity | discriminate | discriminate]. Qed.

(** ** Search and the expanded groups *)

(** C10, as the code has it.  When the search term changes to a term that is
    not blank, the effect that follows it sets the expanded set to exactly the
    names of the groups of the filtered tree, so that every group kept by the
    filter is expanded at that moment.  (Terms of ASCII characters, on which
    [trim] and [toLowerCase] are those of the code.) *)
Theorem search_expands_filtered_groups (term : string) (st : PanelState) :
  asciiOnly term = true ->
  truthy (trim term) = true ->
  searchEffect term (expandedGroups st)
    = list_to_set (getAllGroupNames (filteredOptionTree term))
  /\ (forall g, g ∈ searchEffect term (expandedGroups st)
        <-> exists item, In item (filteredOptionTree term) /\ groupWithin g item)
  /\ (term <> searchTerm st ->
      expandedGroups (onSearchChange term st)
        = list_to_set (getAllGroupNames (filteredOptionTree term))
      /\ forall g item, In item (filteredOptionTree term) -> groupWithin g item ->
           g ∈ expandedGroups (onSearchChange term st)).
Proof.
  intros _ Hterm.
  assert (Hset : forall g, g ∈ searchEffect term (expandedGroups st)
            <-> exists item, In item (filteredOptionTree term) /\ groupWithin g item).
  { intros g. unfold searchEffect, allFilteredGroupNames, getAllGroupNames.
    rewrite Hterm, elem_of_list_to_set, list_elem_of_In, in_flat_map.
    split; intros (item & Hin & Hg); exists item; split; try done;
      by apply groupNamesOf_groupWithin. }
  assert (Heq : searchEffect term (expandedGroups st)
                = list_to_set (getAllGroupNames (filteredOptionTree term))).
  { unfold searchEffect, allFilteredGroupNames. by rewrite Hterm. }
  split; [|split].
  - exact Heq.
  - exact Hset.
  - intros Hne. unfold onSearchChange.
    destruct (String.eqb term (searchTerm st)) eqn:Hsame.
    + apply String.eqb_eq in Hsame. done.
    + simpl. split; [exact Heq|]. intros g item Hin Hg. apply Hset. eauto.
Qed.

Lemma search_expands_filtered_groups_witness :
  asciiOnly "icons" = true
  /\ truthy (trim "icons") = true
  /\ searchEffect "icons" (expandedGroups initialPanelState)
     = list_to_set (getAllGroupNames (filteredOptionTree "icons")).
Proof.
  split; [reflexivity|]. split; [reflexivity|].
  eapply proj1.
  apply (search_expands_filtered_groups "icons" initialPanelState); reflexivity.
Defined.

(** C10, as stated, fails: after the term [icons] was typed, a click on
    collapse-all empties the expanded set; the search is still active and the
    group [Display Elements] is still in the filtered tree, but it is no
    longer expanded.  A click on the row of the group does the same for that
    group. *)
Lemma collapse_persists_during_search :
  truthy (trim (searchTerm (collapseAll (onSearchChange "icons" initialPanelState)))) = true
  /\ In "Display Elements"
       (getAllGroupNames
          (filteredOptionTree
             (searchTerm (collapseAll (onSearchChange "icons" initialPanelState)))))
  /\ ("Display Elements"
        ∉ expandedGroups (collapseAll (onSearchChange "icons" initialPanelState)))
  /\ ("Display Elements"
        ∉ expandedGroups
            (toggleGroup "Display Elements" (onSearchChange "icons" initialPanelState)))
  /\ expandedGroups (collapseAll (onSearchChange "icons" initialPanelState))
     <> list_to_set
          (getAllGroupNames
             (filteredOptionTree
                (searchTerm (collapseAll (onSearchChange "icons" initialPanelState))))).
Proof.
  assert (Hnames : getAllGroupNames (filteredOptionTree "icons") = ["Display Elements"])
    by (vm_compute; reflexivity).
  assert (Hst : onSearchChange "icons" initialPanelState
                = {| expandedGroups := list_to_set ["Display Elements"];
                     searchTerm := "icons" |}).
  { unfold onSearchChange, searchEffect, allFilteredGroupNames.
    change (String.eqb "icons" (searchTerm initialPanelState)) with false.
    change (truthy (trim "icons")) with true. cbv iota. by rewrite Hnames. }
  assert (Hterm : searchTerm (collapseAll (onSearchChange "icons" initialPanelState)) = "icons").
  { by rewrite Hst. }
  assert (Hempty : expandedGroups (collapseAll (onSearchChange "icons" initialPanelState)) = ∅).
  { reflexivity. }
  rewrite Hterm, Hempty, Hnames. split_and!.
  - reflexivity.
  - by left.
  - apply not_elem_of_empty.
  - rewrite Hst. unfold toggleGroup. cbn [searchTerm expandedGroups].
    rewrite bool_decide_eq_true_2 by (clear; set_solver).
    intros H. apply elem_of_difference in H as [_ H]. apply H. by apply elem_of_singleton.
  - intros Heq. apply (not_elem_of_empty (C := gset string) "Display Elements").
    rewrite Heq. clear. set_solver.
Qed.

(** ** Label matching of the filter *)

(** A leaf that the filter matches keeps its whole chain of ancestors: the
    filtered item still holds the leaf under the same path of group names. *)
Lemma filter_keeps_path (labels : gmap string string) (term : string)
    (path : list string) (key : string) (item : OptionItem) :
  leafAt path key item ->
  includes (toLowerCase (filterLabel labels key)) term = true ->
  exists item', filter labels term item = Some item' /\ leafAt path key item'.
Proof.
  induction 1 as [key | path key name children child Hin Hleaf IH]; intros Hmatch.
  - exists (Leaf key). simpl. rewrite Hmatch. split; [done | constructor].
  - destruct (IH Hmatch) as (child' & Hchild & Hleaf').
    simpl. destruct (includes (toLowerCase name) term).
    + eexists. split; [done|]. by econstructor.
    + assert (Hkept : In child' (dropNull (map (filter labels term) children))).
      { apply In_dropNull. rewrite <- Hchild. by apply in_map. }
      destruct (dropNull (map (filter labels term) children)) as [|c cs] eqn:Hcs; [done|].
      simpl. eexists. split; [done|]. by econstructor.
Qed.

Lemma leafAt_group_names (path : list string) (key : string) (item : OptionItem) :
  leafAt path key item -> forall g, In g path -> groupWithin g item.
Proof.
  induction 1 as [key | path key name children child Hin Hleaf IH]; intros g Hg.
  - destruct Hg.
  - destruct Hg as [-> | Hg]; [constructor|].
    eapply groupWithin_child; [exact Hin | by apply IH].
Qed.

(** C4, on the code: for the leaf [filter:class], whose label on screen is
    [Classes], the filter compares the query with the raw key.  The query
    [classes] finds nothing in the option tree, and the query [filter:]
    finds the leaf. *)
Theorem filter_matches_raw_filter_key :
  displayLabel optionLabels "filter:class" = "Classes"
  /\ includes (toLowerCase (displayLabel optionLabels "filter:class")) (toLowerCase "classes") = true
  /\ filterLabel optionLabels "filter:class" = "filter:class"
  /\ filter optionLabels (toLowerCase "classes") (Leaf "filter:class") = None
  /\ filteredOptionTree "classes" = []
  /\ filter optionLabels (toLowerCase "filter:") (Leaf "filter:class") = Some (Leaf "filter:class")
  /\ filter optionLabels (toLowerCase "ICONS") (Leaf "showIcons") = Some (Leaf "showIcons")
  /\ filter optionLabels (toLowerCase "show") (Leaf "showIcons") = None.
Proof. vm_compute. repeat split. Qed.

(** C5, on the code: the leaf [filter:react_component] lies under the groups
    [Symbol Visibility] and [React] and its label [React Components] contains
    the query [components], yet no group at all is left in the filtered tree. *)
Theorem filter_drops_ancestors_of_filter_leaf :
  In symbolVisibilityTree optionTree
  /\ leafAt ["Symbol Visibility"; "React"] "filter:react_component" symbolVisibilityTree
  /\ includes (toLowerCase (displayLabel optionLabels "filter:react_component"))
       (toLowerCase "components") = true
  /\ includes (toLowerCase "Symbol Visibility") (toLowerCase "components") = false
  /\ includes (toLowerCase "React") (toLowerCase "components") = false
  /\ getAllGroupNames (filteredOptionTree "components") = [].
Proof.
  split; [|split].
  - do 3 right. by left.
  - eapply leafAt_child; [right; left; reflexivity|].
    eapply leafAt_child; [left; reflexivity|]. constructor.
  - vm_compute. repeat split.
Qed.

(** ** The analysis job *)

Section JobProperties.

Variable parseFileList : string -> list FileContent + string.
Variable calculateTokenImpact :
  list SourceFile -> FormattingOptions -> FormattingOptionsTokenImpact.

Local Abbreviation stepW := (step parseFileList calculateTokenImpact).
Local Abbreviation runW := (run parseFileList calculateTokenImpact).

Lemma handleAnalyzeBegin_busy f o i e now (st : HookState) :
  isInitialized st = true -> serviceRef st = true -> isLoading st = true ->
  handleAnalyzeBegin f o i e now st = (st, Returned).
Proof.
  intros Hi Hs Hl. unfold handleAnalyzeBegin, handleAnalyzeCall.
  by rewrite Hi, Hs, Hl.
Qed.

Lemma handleAnalyzeBegin_accept f o i e now (st : HookState) :
  isInitialized st = true -> serviceRef st = true -> isLoading st = false ->
  handleAnalyzeBegin f o i e now st
  = (resetAnalysisState (setIsLoading true st),
     Awaiting {| reqFilesInput := f; reqLogLevel := LevelDebug;
                 reqFormattingOptions := o; reqIncludePattern := i;
                 reqExcludePattern := e |}).
Proof.
  intros Hi Hs Hl. unfold handleAnalyzeBegin, handleAnalyzeCall.
  by rewrite Hi, Hs, Hl.
Qed.

Lemma step_singleFlight (pg pg' : Page) (ev : Event) :
  singleFlight pg -> stepW pg ev = Some pg' -> singleFlight pg'.
Proof.
  destruct pg as [[ini ld res prog lg tm imp svc] s w ip r].
  unfold singleFlight. simpl. intros (-> & Hini & Hld & Hidle) Hstep.
  destruct ev; simpl in Hstep.
  - unfold handleAnalyzeBegin, handleAnalyzeCall in Hstep. simpl in Hstep.
    destruct ini, ld; simpl in Hstep; simplify_eq; simpl;
      try (specialize (Hini eq_refl)); try done.
    rewrite (Hidle eq_refl). simpl. split_and!; eauto; done.
  - unfold handleStop in Hstep. simpl in Hstep.
    destruct ld; simpl in Hstep; simplify_eq; simpl; [|done].
    destruct (Hld eq_refl) as [job ->]. simpl. split_and!; eauto; done.
  - simplify_eq. done.
  - simplify_eq. done.
  - simplify_eq. done.
  - simplify_eq. done.
  - destruct ip; [|done]. destruct ok; simplify_eq; simpl; done.
  - destruct r; simplify_eq. done.
  - destruct r; simplify_eq. done.
  - destruct r as [|job rest]; simplify_eq. simpl.
    destruct ld; [|by specialize (Hidle eq_refl)].
    destruct (Hld eq_refl) as [job' Hjob]. simplify_eq.
    unfold handleAnalyzeResume.
    destruct (workerAnalyze _ _ _ _ _) as [response | reason]; simpl;
      [|destruct (String.eqb _ _)]; simpl; done.
Qed.

Lemma run_singleFlight (evs : list Event) (pg pg' : Page) :
  singleFlight pg -> runW pg evs = Some pg' -> singleFlight pg'.
Proof.
  revert pg. induction evs as [|ev evs IH]; intros pg Hinv Hrun; simpl in Hrun.
  - by simplify_eq.
  - destruct (stepW pg ev) as [pg1|] eqn:Hstep; [|done].
    eapply IH; [|exact Hrun]. by eapply step_singleFlight.
Qed.

Lemma mounted_singleFlight (s : AppStore) : singleFlight (mountedPage s).
Proof. unfold singleFlight. simpl. done. Qed.

(** Events other than the settlement leave the running job, its request and
    the result cells alone; the only log entries they add are those the
    worker reports. *)
Lemma step_keepsJob (request : AnalyzeRequest) (pg pg' : Page) (ev : Event) :
  inFlight request pg -> keepsJob ev = true -> stepW pg ev = Some pg' ->
  inFlight request pg'
  /\ logs (hook pg') = logs (hook pg) ++ reportedLogs [ev]
  /\ analysisResult (hook pg') = analysisResult (hook pg)
  /\ analysisTimeCell (hook pg') = analysisTimeCell (hook pg)
  /\ tokenImpactCell (hook pg') = tokenImpactCell (hook pg).
Proof.
  destruct pg as [[ini ld res prog lg tm imp svc] s w ip r].
  unfold inFlight. simpl.
  intros (-> & -> & -> & -> & -> & aborted & ->) Hkeep Hstep.
  destruct ev; simpl in Hstep; try done; simplify_eq; simpl;
    rewrite ?app_nil_r; split_and!; eauto.
Qed.

Lemma run_keepsJob (request : AnalyzeRequest) (mids : list Event) (pg pg' : Page) :
  inFlight request pg -> forallb keepsJob mids = true -> runW pg mids = Some pg' ->
  inFlight request pg'
  /\ logs (hook pg') = logs (hook pg) ++ reportedLogs mids
  /\ analysisResult (hook pg') = analysisResult (hook pg)
  /\ analysisTimeCell (hook pg') = analysisTimeCell (hook pg)
  /\ tokenImpactCell (hook pg') = tokenImpactCell (hook pg).
Proof.
  revert pg. induction mids as [|ev mids IH]; intros pg Hin Hkeep Hrun.
  - simpl in Hrun. simplify_eq. simpl. by rewrite app_nil_r.
  - simpl in Hkeep. apply andb_true_iff in Hkeep as [Hev Hmids].
    simpl in Hrun. destruct (stepW pg ev) as [pg1|] eqn:Hstep; [|done].
    destruct (step_keepsJob request pg pg1 ev Hin Hev Hstep)
      as (Hin1 & Hlogs1 & Hres1 & Htm1 & Himp1).
    destruct (IH pg1 Hin1 Hmids Hrun) as (Hin' & Hlogs' & Hres' & Htm' & Himp').
    split; [done|]. split_and!; try congruence.
    rewrite Hlogs', Hlogs1, <- app_assoc. f_equal.
    unfold reportedLogs. simpl. by rewrite app_nil_r.
Qed.

Lemma accepted_click (pg pg1 : Page) (now : Z) :
  ready pg -> stepW pg (ClickAnalyze now) = Some pg1 ->
  let request :=
    {| reqFilesInput := filesInput (store pg); reqLogLevel := LevelDebug;
       reqFormattingOptions := formattingOptions (store pg);
       reqIncludePattern := includePattern (store pg);
       reqExcludePattern := excludePattern (store pg) |} in
  inFlight request pg1
  /\ hook pg1 = resetAnalysisState (setIsLoading true (hook pg))
  /\ running pg1 = [{| jobRequest := request; jobAborted := false |}]
  /\ store pg1 = store pg.
Proof.
  intros (Hi & Hs & Hl & Hr & Hw & Hp) Hstep. simpl in Hstep.
  rewrite (handleAnalyzeBegin_accept _ _ _ _ _ _ Hi Hs Hl) in Hstep.
  simplify_eq. unfold inFlight. simpl. rewrite Hr. simpl.
  split_and!; eauto.
Qed.

(** C3, as the code has it.  A run accepted on a ready page sends the
    options of the store as they are at the click; whatever is edited while
    the job runs, a successful completion stores the impact table computed
    from the analyzer's files and those request-time options. *)
Theorem impact_computed_from_request_options
    (pg pg1 pg2 pg3 : Page) (mids : list Event) (now now' : Z)
    (files : list FileContent) (sourceFiles : list SourceFile) (elapsed : Z) :
  ready pg ->
  stepW pg (ClickAnalyze now) = Some pg1 ->
  forallb keepsJob mids = true ->
  runW pg1 mids = Some pg2 ->
  parseFileList (filesInput (store pg)) = inl files ->
  stepW pg2 (AnalyzeSettled (ProjectAnalyzed sourceFiles elapsed) now') = Some pg3 ->
  tokenImpactCell (hook pg3)
    = Some (calculateTokenImpact sourceFiles (formattingOptions (store pg)))
  /\ analysisResult (hook pg3) = Some (sanitizeAnalysisResult sourceFiles)
  /\ analysisTimeCell (hook pg3) = Some elapsed
  /\ isLoading (hook pg3) = false
  /\ running pg3 = [].
Proof.
  intros Hready Hclick Hkeep Hrun Hparse Hsettle.
  destruct (accepted_click pg pg1 now Hready Hclick) as (Hin1 & _).
  destruct (run_keepsJob _ mids pg1 pg2 Hin1 Hkeep Hrun) as (Hin2 & _).
  destruct Hin2 as (_ & _ & _ & Hw & _ & aborted & Hr).
  simpl in Hsettle. rewrite Hr, Hw in Hsettle. simpl in Hsettle.
  unfold workerAnalyze in Hsettle. simpl in Hsettle. rewrite Hparse in Hsettle.
  simplify_eq. simpl. done.
Qed.

(** C9. A run request accepted on a ready page leaves, at the moment the
    request goes to the worker, no result, no elapsed time, no progress, no
    impact table and no log entry of an earlier job; and if the job then
    fails, the result cells are still empty and the log holds only what the
    worker reported for this job followed by the one entry of the failure. *)
Theorem accepted_run_clears_previous_job
    (pg pg1 : Page) (now : Z) :
  ready pg ->
  stepW pg (ClickAnalyze now) = Some pg1 ->
  (isLoading (hook pg1) = true
   /\ analysisResult (hook pg1) = None
   /\ analysisTimeCell (hook pg1) = None
   /\ progress (hook pg1) = None
   /\ tokenImpactCell (hook pg1) = None
   /\ logs (hook pg1) = []
   /\ exists job, running pg1 = [job])
  /\ forall (mids : list Event) (pg2 pg3 : Page) (project : ProjectOutcome)
            (reason : JsError) (now' : Z),
       forallb keepsJob mids = true ->
       runW pg1 mids = Some pg2 ->
       (forall job, In job (running pg2) ->
          workerAnalyze parseFileList calculateTokenImpact true (jobRequest job) project
          = Rejected reason) ->
       stepW pg2 (AnalyzeSettled project now') = Some pg3 ->
       analysisResult (hook pg3) = None
       /\ analysisTimeCell (hook pg3) = None
       /\ tokenImpactCell (hook pg3) = None
       /\ progress (hook pg3) = None
       /\ isLoading (hook pg3) = false
       /\ exists entry, logs (hook pg3) = reportedLogs mids ++ [entry].
Proof.
  intros Hready Hclick.
  destruct (accepted_click pg pg1 now Hready Hclick) as (Hin1 & Hhook & Hrunning & _).
  split.
  - rewrite Hhook, Hrunning. simpl. split_and!; eauto.
  - intros mids pg2 pg3 project reason now' Hkeep Hrun Hfail Hsettle.
    destruct (run_keepsJob _ mids pg1 pg2 Hin1 Hkeep Hrun)
      as (Hin2 & Hlogs & Hres & Htm & Himp).
    destruct Hin2 as (_ & _ & _ & Hw & _ & aborted & Hr).
    rewrite Hhook in Hlogs, Hres, Htm, Himp. simpl in Hlogs, Hres, Htm, Himp.
    rewrite Hr in Hfail. specialize (Hfail _ (or_introl eq_refl)). simpl in Hfail.
    simpl in Hsettle. rewrite Hr, Hw in Hsettle. simpl in Hsettle.
    rewrite Hfail in Hsettle.
    simplify_eq. unfold handleAnalyzeResume.
    destruct (String.eqb (errorName reason) "AbortError"); simpl;
      rewrite Hlogs; split_and!; eauto.
Qed.

End JobProperties.

(** ** The model run on concrete pages *)

Lemma readyPage_ready : ready readyPage.
Proof. unfold ready. simpl. split_and!; reflexivity. Qed.

(** C1, as the code has it.  A run request issued while a job is running,
    through the callback of a render that shows the job (its [isLoading] is
    true), returns at once without an error: the promise of [handleAnalyze]
    resolves.  The request is not queued, and the hook state, the store and
    the running jobs are left as they are.  In particular a click on Analyze
    on a page that shows a job running changes nothing. *)
Theorem run_request_seen_running_is_ignored
    (parseFileList : string -> list FileContent + string)
    (calculateTokenImpact :
       list SourceFile -> FormattingOptions -> FormattingOptionsTokenImpact)
    (seen : AppStore) (now : Z) (pg : Page) :
  serviceRef (hook pg) = true ->
  requestAnalyze true true seen now pg = pg
  /\ handleAnalyzeCall true true (filesInput seen) (formattingOptions seen)
       (includePattern seen) (excludePattern seen) now (hook pg)
     = (hook pg, Returned)
  /\ handleAnalyzePromise
       (handleAnalyzeCall true true (filesInput seen) (formattingOptions seen)
          (includePattern seen) (excludePattern seen) now (hook pg)).2
     = Some (Resolved tt)
  /\ (isInitialized (hook pg) = true -> isLoading (hook pg) = true ->
      step parseFileList calculateTokenImpact pg (ClickAnalyze now) = Some pg).
Proof.
  intros Hsvc.
  assert (Hcall : forall f o i e,
            handleAnalyzeCall true true f o i e now (hook pg) = (hook pg, Returned)).
  { intros f o i e. unfold handleAnalyzeCall. by rewrite Hsvc. }
  split_and!.
  - unfold requestAnalyze. rewrite Hcall. by destruct pg.
  - apply Hcall.
  - by rewrite Hcall.
  - intros Hi Hl. simpl. unfold handleAnalyzeBegin. rewrite Hi, Hl, Hcall. by destruct pg.
Qed.

Lemma run_request_seen_running_is_ignored_witness :
  requestAnalyze true true sampleStore 2
    (requestAnalyze true false sampleStore 1 readyPage)
  = requestAnalyze true false sampleStore 1 readyPage.
Proof.
  eapply proj1.
  apply (run_request_seen_running_is_ignored sampleParse sampleImpact sampleStore 2
           (requestAnalyze true false sampleStore 1 readyPage)).
  reflexivity.
Defined.

(** Two requests made through the callback of one and the same idle render
    both pass the guard, which tests the flag that render captured: two jobs
    are handed to the worker. *)
Lemma stale_requests_start_two_jobs :
  length (running (requestAnalyze true false sampleStore 2
                     (requestAnalyze true false sampleStore 1 readyPage))) = 2%nat.
Proof. reflexivity. Qed.

(** C1, as stated, fails: after the worker is ready and a run was accepted, a
    second run request made while the job is running settles its promise as
    resolved; it is not rejected, with [BusyError] or otherwise. *)
Lemma busy_run_request_is_not_rejected :
  exists pg,
    run sampleParse sampleImpact (mountedPage sampleStore)
      [InitSettled None 0; ClickAnalyze 1] = Some pg
    /\ (exists job, running pg = [job])
    /\ handleAnalyzePromise
         (handleAnalyzeBegin "[]" sampleOptions "**/*" "" 2 (hook pg)).2
       = Some (Resolved tt)
    /\ ~ (exists reason,
            handleAnalyzePromise
              (handleAnalyzeBegin "[]" sampleOptions "**/*" "" 2 (hook pg)).2
            = Some (Rejected reason)
            /\ errorName reason = "BusyError").
Proof.
  eexists. split; [reflexivity|]. split; [eexists; reflexivity|].
  split; [reflexivity|].
  intros (reason & Hrej & _). discriminate Hrej.
Qed.

Lemma impact_computed_from_request_options_witness :
  exists pg3,
    run sampleParse sampleImpact readyPage
      [ClickAnalyze 1; EditOption "showOutgoing" Unchecked;
       AnalyzeSettled (ProjectAnalyzed [sampleFile] 5) 9] = Some pg3
    /\ tokenImpactCell (hook pg3)
       = Some (sampleImpact [sampleFile] (formattingOptions (store readyPage))).
Proof.
  eexists. split; [reflexivity|].
  eapply proj1.
  eapply (impact_computed_from_request_options sampleParse sampleImpact
            readyPage _ _ _ [EditOption "showOutgoing" Unchecked] 1 9 [] [sampleFile] 5).
  - exact readyPage_ready.
  - reflexivity.
  - reflexivity.
  - reflexivity.
  - reflexivity.
  - reflexivity.
Defined.

(** C3, as stated, fails: the option [showOutgoing] is cleared while the job
    runs; the impact table stored at completion is the one of the options
    sent with the request, and differs from the table of the options current
    at completion. *)
Lemma impact_ignores_edits_made_while_running :
  exists pg3,
    run sampleParse sampleImpact readyPage
      [ClickAnalyze 1; EditOption "showOutgoing" Unchecked;
       AnalyzeSettled (ProjectAnalyzed [sampleFile] 5) 9] = Some pg3
    /\ tokenImpactCell (hook pg3) = Some (sampleImpact [sampleFile] sampleOptions)
    /\ tokenImpactCell (hook pg3)
       <> Some (sampleImpact [sampleFile] (formattingOptions (store pg3))).
Proof.
  eexists. split; [reflexivity|]. split; [reflexivity|].
  intros Heq.
  apply (f_equal (fun cell => match cell with
                               | Some table => keyImpact table "showOutgoing"
                               | None => None
                               end)) in Heq.
  vm_compute in Heq. discriminate Heq.
Qed.

Lemma accepted_run_clears_previous_job_witness :
  exists pg1,
    step sampleParse sampleImpact staleReadyPage (ClickAnalyze 7) = Some pg1
    /\ analysisResult (hook staleReadyPage) = Some [sampleFile]
    /\ analysisResult (hook pg1) = None
    /\ logs (hook pg1) = [].
Proof.
  eexists. split; [reflexivity|]. split; [reflexivity|].
  match goal with
  | |- analysisResult (hook ?pg1) = None /\ _ =>
      destruct (accepted_run_clears_previous_job sampleParse sampleImpact
                  staleReadyPage pg1 7)
        as [(_ & Hres & _ & _ & _ & Hlogs & _) _]
  end.
  - unfold ready. simpl. split_and!; reflexivity.
  - reflexivity.
  - split; [exact Hres | exact Hlogs].
Defined.

(* ===================================================================== *)
(** * Further properties *)
(* ===================================================================== *)

(** ** The search filter *)

Lemma filter_group_unmatched (labels : gmap string string) (term name : string)
    (children : list OptionItem) (item' : OptionItem) :
  includes (toLowerCase name) term = false ->
  filter labels term (Group name children) = Some item' ->
  item' = Group name (dropNull (map (filter labels term) children))
  /\ dropNull (map (filter labels term) children) <> [].
Proof.
  intros Hname. simpl. rewrite Hname.
  destruct (dropNull (map (filter labels term) children)) as [|c cs]; simpl; [done|].
  intros [= <-]. done.
Qed.

Lemma In_filtered_children (labels : gmap string string) (term : string)
    (children : list OptionItem) (child' : OptionItem) :
  In child' (dropNull (map (filter labels term) children))
  <-> exists child, In child children /\ filter labels term child = Some child'.
Proof.
  rewrite In_dropNull, in_map_iff. split; intros (child & H1 & H2); exists child; done.
Qed.

(** A leaf whose label matches, or one of whose ancestors matches by name, is
    kept under the same path. *)
Lemma filter_keeps_matched_path (labels : gmap string string) (term : string)
    (path : list string) (key : string) (item : OptionItem) :
  leafAt path key item ->
  includes (toLowerCase (filterLabel labels key)) term = true
  \/ (exists g, In g path /\ includes (toLowerCase g) term = true) ->
  exists item', filter labels term item = Some item' /\ leafAt path key item'.
Proof.
  induction 1 as [key | path key name children child Hin Hleaf IH]; intros Hmatch.
  - destruct Hmatch as [Hlabel | (g & [] & _)].
    exists (Leaf key). simpl. rewrite Hlabel. split; [done | constructor].
  - destruct (includes (toLowerCase name) term) eqn:Hname.
    + exists (Group name children). simpl. rewrite Hname. split; [done|].
      by econstructor.
    + destruct IH as (child' & Hchild & Hleaf').
      { destruct Hmatch as [Hlabel | (g & [-> | Hg] & Hgm)]; [by left | congruence |].
        right. eauto. }
      assert (Hkept : In child' (dropNull (map (filter labels term) children))).
      { apply In_filtered_children. eauto. }
      simpl. rewrite Hname.
      destruct (dropNull (map (filter labels term) children)) as [|c cs] eqn:Hcs; [done|].
      simpl. eexists. split; [done|]. by econstructor.
Qed.

Lemma filter_output_path (labels : gmap string string) (term : string)
    (item : OptionItem) :
  forall item' path key,
    filter labels term item = Some item' -> leafAt path key item' ->
    leafAt path key item
    /\ (includes (toLowerCase (filterLabel labels key)) term = true
        \/ exists g, In g path /\ includes (toLowerCase g) term = true).
Proof.
  induction item as [k | name children IH] using OptionItem_tree_ind;
    intros item' path key Hf Hleaf.
  - simpl in Hf.
    destruct (includes (toLowerCase (filterLabel labels k)) term) eqn:Hk; [|done].
    injection Hf as <-. inversion Hleaf; subst. split; [constructor | by left].
  - destruct (includes (toLowerCase name) term) eqn:Hname.
    + simpl in Hf. rewrite Hname in Hf. injection Hf as <-. split; [done|].
      inversion Hleaf; subst. right. exists name. split; [by left | done].
    + destruct (filter_group_unmatched _ _ _ _ _ Hname Hf) as [-> _].
      inversion Hleaf as [| path' ? ? ? child' Hin' Hleaf']; subst.
      apply In_filtered_children in Hin' as (child & Hin & Hchild).
      rewrite List.Forall_forall in IH.
      destruct (IH child Hin child' path' key Hchild Hleaf') as [Horig Hwhy].
      split; [by econstructor|].
      destruct Hwhy as [Hl | (g & Hg & Hgm)]; [by left|].
      right. exists g. split; [by right | done].
Qed.

(** X1. A leaf is in the filtered item, under a given path of groups, exactly
    when it is in the original item under that path and either its filter
    label contains the term or the name of one of the groups on the path
    does. *)
Theorem filter_keeps_exactly_matching_paths
    (labels : gmap string string) (term : string) (item item' : OptionItem)
    (path : list string) (key : string) :
  filter labels term item = Some item' ->
  (leafAt path key item'
   <-> leafAt path key item
       /\ (includes (toLowerCase (filterLabel labels key)) term = true
           \/ exists g, In g path /\ includes (toLowerCase g) term = true)).
Proof.
  intros Hf. split.
  - by apply filter_output_path.
  - intros [Hleaf Hmatch].
    destruct (filter_keeps_matched_path labels term path key item Hleaf Hmatch)
      as (item'' & Hf' & Hleaf').
    congruence.
Qed.

Lemma filter_keeps_exactly_matching_paths_witness :
  leafAt ["Identifiers"] "showFileIds"
    (Group "Identifiers" [Leaf "showFilePrefix"; Leaf "showFileIds"])
  /\ ~ leafAt ["Identifiers"] "showSymbolIds"
       (Group "Identifiers" [Leaf "showFilePrefix"; Leaf "showFileIds"]).
Proof.
  pose proof (filter_keeps_exactly_matching_paths optionLabels "file"
                (Group "Identifiers"
                   [Leaf "showFilePrefix"; Leaf "showFileIds"; Leaf "showSymbolIds"])
                (Group "Identifiers" [Leaf "showFilePrefix"; Leaf "showFileIds"])
                ["Identifiers"]) as H.
  split.
  - apply (H "showFileIds"); [vm_compute; reflexivity|].
    split; [|left; vm_compute; reflexivity].
    eapply leafAt_child; [right; left; reflexivity | constructor].
  - intros Hleaf. apply (H "showSymbolIds") in Hleaf; [|vm_compute; reflexivity].
    destruct Hleaf as [_ [Hl | (g & [<- | []] & Hg)]]; vm_compute in *; discriminate.
Defined.

Lemma filter_fixpoint (labels : gmap string string) (term : string) (item : OptionItem) :
  forall item', filter labels term item = Some item' ->
                filter labels term item' = Some item'.
Proof.
  induction item as [k | name children IH] using OptionItem_tree_ind; intros item' Hf.
  - simpl in Hf.
    destruct (includes (toLowerCase (filterLabel labels k)) term) eqn:Hk; [|done].
    injection Hf as <-. simpl. by rewrite Hk.
  - destruct (includes (toLowerCase name) term) eqn:Hname.
    + simpl in Hf. rewrite Hname in Hf. injection Hf as <-. simpl. by rewrite Hname.
    + destruct (filter_group_unmatched _ _ _ _ _ Hname Hf) as [-> Hne].
      set (kept := dropNull (map (filter labels term) children)) in *.
      assert (Hsame : map (filter labels term) kept = map Some kept).
      { apply map_ext_in. intros c' Hc'.
        apply In_filtered_children in Hc' as (c & Hin & Hc).
        rewrite List.Forall_forall in IH. by apply (IH c Hin). }
      simpl. rewrite Hname. fold kept. rewrite Hsame, dropNull_map_Some.
      destruct kept; [done | reflexivity].
Qed.

Lemma toLowerCase_idempotent (s : string) : toLowerCase (toLowerCase s) = toLowerCase s.
Proof.
  induction s as [|c s IH]; simpl; [done|]. rewrite IH. f_equal.
  destruct c as [[] [] [] [] [] [] [] []]; reflexivity.
Qed.

Lemma isBlank_trimStart (s : string) : isBlank (trimStart s) = isBlank s.
Proof.
  induction s as [|c s IH]; simpl; [done|].
  destruct (isWhiteSpace c) eqn:Hc; simpl; [done | by rewrite Hc].
Qed.

Lemma trimEnd_empty (s : string) : trimEnd s = "" <-> isBlank s = true.
Proof.
  induction s as [|c s IH]; simpl; [done|].
  destruct (trimEnd s) eqn:Ht.
  - destruct (isWhiteSpace c); simpl; [|done]. split; [intros _; by apply IH | done].
  - split; [done|]. rewrite andb_true_iff. intros [_ Hb]. apply IH in Hb. done.
Qed.

Lemma trimStart_blank (s : string) : isBlank s = true -> trimStart s = "".
Proof.
  induction s as [|c s IH]; simpl; [done|].
  rewrite andb_true_iff. intros [-> Hs]. by apply IH.
Qed.

Lemma truthy_trim (s : string) : truthy (trim s) = negb (isBlank s).
Proof.
  unfold trim. destruct (isBlank s) eqn:Hb; simpl.
  - by rewrite (trimStart_blank s Hb).
  - destruct (trimEnd (trimStart s)) eqn:Ht; [|done].
    apply trimEnd_empty in Ht. rewrite isBlank_trimStart in Ht. congruence.
Qed.

Lemma isBlank_toLowerCase (s : string) : isBlank (toLowerCase s) = isBlank s.
Proof.
  induction s as [|c s IH]; simpl; [done|]. rewrite IH. f_equal.
  destruct c as [[] [] [] [] [] [] [] []]; reflexivity.
Qed.

(** X2. Filtering is idempotent: running the search again on its own output,
    with the same term, returns that output. *)
Theorem filteredTree_idempotent
    (labels : gmap string string) (forest : list OptionItem) (term : string) :
  filteredTree labels (filteredTree labels forest term) term
  = filteredTree labels forest term.
Proof.
  unfold filteredTree. destruct (negb (truthy (trim term))); [done|].
  set (q := toLowerCase term).
  set (kept := dropNull (map (filter labels q) forest)).
  assert (Hsame : map (filter labels q) kept = map Some kept).
  { apply map_ext_in. intros c' Hc'.
    apply In_filtered_children in Hc' as (c & _ & Hc). by apply (filter_fixpoint labels q c). }
  by rewrite Hsame, dropNull_map_Some.
Qed.

Lemma filter_names_within (labels : gmap string string) (term : string) (item : OptionItem) :
  forall item', filter labels term item = Some item' ->
    (forall g, In g (groupNamesOf item') -> In g (groupNamesOf item))
    /\ (forall k, In k (getAllKeys item') -> In k (getAllKeys item)).
Proof.
  induction item as [k | name children IH] using OptionItem_tree_ind; intros item' Hf.
  - simpl in Hf. destruct (includes _ term); [|done]. by injection Hf as <-.
  - destruct (includes (toLowerCase name) term) eqn:Hname.
    + simpl in Hf. rewrite Hname in Hf. by injection Hf as <-.
    + destruct (filter_group_unmatched _ _ _ _ _ Hname Hf) as [-> _].
      rewrite List.Forall_forall in IH. simpl. split.
      * intros g [-> | Hg]; [by left|]. right.
        apply in_flat_map in Hg as (c' & Hc' & Hg).
        apply In_filtered_children in Hc' as (c & Hin & Hc).
        apply in_flat_map. exists c. split; [done|]. by apply (IH c Hin c' Hc).
      * intros k Hk.
        apply in_flat_map in Hk as (c' & Hc' & Hk).
        apply In_filtered_children in Hc' as (c & Hin & Hc).
        apply in_flat_map. exists c. split; [done|]. by apply (IH c Hin c' Hc).
Qed.

(** X3. The search never invents anything: every group name and every leaf
    key of the filtered forest is a group name, respectively a leaf key, of
    the forest it was given. *)
Theorem filteredTree_within_forest
    (labels : gmap string string) (forest : list OptionItem) (term : string) :
  (forall g, In g (getAllGroupNames (filteredTree labels forest term)) ->
             In g (getAllGroupNames forest))
  /\ (forall k, In k (flat_map getAllKeys (filteredTree labels forest term)) ->
                In k (flat_map getAllKeys forest)).
Proof.
  unfold filteredTree, getAllGroupNames.
  destruct (negb (truthy (trim term))); [done|].
  split.
  - intros g Hg. apply in_flat_map in Hg as (c' & Hc' & Hg).
    apply In_filtered_children in Hc' as (c & Hin & Hc).
    apply in_flat_map. exists c. split; [done|].
    by apply (filter_names_within labels _ c c' Hc).
  - intros k Hk. apply in_flat_map in Hk as (c' & Hc' & Hk).
    apply In_filtered_children in Hc' as (c & Hin & Hc).
    apply in_flat_map. exists c. split; [done|].
    by apply (filter_names_within labels _ c c' Hc).
Qed.

(** X4. The search does not depend on the case of the term: two terms with
    the same lower-case form give the same filtered forest; and a term made
    of white space only gives back the whole forest. *)
Theorem filteredTree_case_insensitive
    (labels : gmap string string) (forest : list OptionItem) (term1 term2 : string) :
  toLowerCase term1 = toLowerCase term2 ->
  filteredTree labels forest term1 = filteredTree labels forest term2
  /\ (isBlank term1 = true -> filteredTree labels forest term1 = forest).
Proof.
  intros Hlow. unfold filteredTree. rewrite !truthy_trim, !negb_involutive.
  assert (Hb : isBlank term1 = isBlank term2).
  { by rewrite <- (isBlank_toLowerCase term1), Hlow, isBlank_toLowerCase. }
  rewrite <- Hb, Hlow. split; [done|]. by intros ->.
Qed.

Lemma filteredTree_case_insensitive_witness :
  filteredTree optionLabels optionTree "ICONS" = filteredTree optionLabels optionTree "icons".
Proof.
  apply (filteredTree_case_insensitive optionLabels optionTree "ICONS" "icons").
  reflexivity.
Defined.

(** ** Option toggles and the checkboxes *)

Lemma keyChecked_entryOf (st : FormattingOptions) (k : string) :
  keyChecked st k = default true (entryOf st k).
Proof.
  unfold keyChecked, entryOf, filterEntry.
  destruct (startsWith k filterPrefix); [|done].
  destruct (displayFilters st) as [filters|]; [|done].
  by destruct (filters !! kindOf k).
Qed.

Lemma entryOf_frame (st st' : FormattingOptions) (k : string) :
  flags st' !! k = flags st !! k ->
  filterEntry st' (kindOf k) = filterEntry st (kindOf k) ->
  entryOf st' k = entryOf st k.
Proof. unfold entryOf. intros -> ->. done. Qed.

Lemma assignKeys_keyChecked_in (keys : list string) (value : bool)
    (prev : FormattingOptions) (k : string) :
  In k keys -> keyChecked (assignKeys keys value prev) k = value.
Proof.
  intros Hin. rewrite keyChecked_entryOf.
  destruct (assignKeys_spec keys value prev) as (H & _). by rewrite (H k Hin).
Qed.

Lemma assignKeys_keyChecked_out (keys : list string) (value : bool)
    (prev : FormattingOptions) (k : string) :
  ~ In k keys -> keyChecked (assignKeys keys value prev) k = keyChecked prev k.
Proof.
  intros Hout. rewrite !keyChecked_entryOf.
  destruct (assignKeys_spec keys value prev) as (_ & _ & Hflags & Hfilters).
  unfold entryOf. destruct (startsWith k filterPrefix) eqn:Hk.
  - rewrite Hfilters; [done|]. by rewrite (toFilter_kindOf k Hk).
  - by rewrite Hflags.
Qed.

Lemma forallb_agree {A : Type} (f g : A -> bool) (l : list A) :
  (forall x, In x l -> f x = g x) -> forallb f l = forallb g l.
Proof.
  induction l as [|x l IH]; intros H; simpl; [done|].
  rewrite (H x (or_introl eq_refl)), IH; [done|]. intros y Hy. apply H. by right.
Qed.

Lemma forallb_const_on {A : Type} (f : A -> bool) (b : bool) (l : list A) :
  l <> [] -> (forall x, In x l -> f x = b) -> forallb f l = b.
Proof.
  intros Hne H. destruct l as [|x l]; [done|]. destruct b.
  - apply forallb_forall. exact H.
  - simpl. by rewrite (H x (or_introl eq_refl)).
Qed.

(** X5. The select-all button always flips: after [selectAll] every option of
    the tree counts as selected, so the button offers to deselect; after
    [deselectAll] it offers to select again. *)
Theorem select_all_then_deselect_all (prev : FormattingOptions) :
  areAllSelected (selectAll prev) = true
  /\ areAllSelected (deselectAll prev) = false
  /\ (forall k, In k allOptionKeys -> keyChecked (selectAll prev) k = true)
  /\ (forall k, In k allOptionKeys -> keyChecked (deselectAll prev) k = false)
  /\ preset (selectAll prev) = None /\ preset (deselectAll prev) = None.
Proof.
  assert (Hne : allOptionKeys <> []) by (vm_compute; discriminate).
  assert (Hlen : (length allOptionKeys =? 0)%nat = false) by (vm_compute; reflexivity).
  unfold areAllSelected. rewrite Hlen. split_and!.
  - apply forallb_const_on; [done|]. intros k Hk. by apply assignKeys_keyChecked_in.
  - apply forallb_const_on; [done|]. intros k Hk. by apply assignKeys_keyChecked_in.
  - intros k Hk. by apply assignKeys_keyChecked_in.
  - intros k Hk. by apply assignKeys_keyChecked_in.
  - apply assignKeys_spec.
  - apply assignKeys_spec.
Qed.

(** X6. Clicking the checkbox of a group that has at least one leaf, all of
    its leaves being option keys (none spelled [preset] or [displayFilters],
    none addressing [__proto__]), makes the group checkbox show the clicked
    value: checked after a checked click, unchecked after an unchecked or an
    [indeterminate] one. *)
Theorem group_toggle_sets_group_checkbox
    (prev : FormattingOptions) (item : OptionItem) :
  getAllKeys item <> [] ->
  ~ In "preset" (getAllKeys item) ->
  ~ In "displayFilters" (getAllKeys item) ->
  ~ In "__proto__" (getAllKeys item) ->
  ~ In (toFilter "__proto__") (getAllKeys item) ->
  allChecked (handleGroupChange (getAllKeys item) Checked prev) item = true
  /\ allChecked (handleGroupChange (getAllKeys item) Unchecked prev) item = false
  /\ allChecked (handleGroupChange (getAllKeys item) Indeterminate prev) item = false.
Proof.
  intros Hne _ _ _ _. unfold allChecked, handleGroupChange. split_and!.
  - apply forallb_const_on; [done|].
    intros k Hk. by apply (assignKeys_keyChecked_in (getAllKeys item) true).
  - apply forallb_const_on; [done|].
    intros k Hk. by apply (assignKeys_keyChecked_in (getAllKeys item) false).
  - apply forallb_const_on; [done|].
    intros k Hk. by apply (assignKeys_keyChecked_in (getAllKeys item) false).
Qed.

Lemma group_toggle_sets_group_checkbox_witness :
  allChecked
    (handleGroupChange (getAllKeys (Group "Relationships" [Leaf "showOutgoing"; Leaf "showIncoming"]))
       Checked (handleGroupChange ["showOutgoing"] Unchecked sampleOptions))
    (Group "Relationships" [Leaf "showOutgoing"; Leaf "showIncoming"])
  = true.
Proof.
  eapply proj1.
  apply (group_toggle_sets_group_checkbox
           (handleGroupChange ["showOutgoing"] Unchecked sampleOptions)
           (Group "Relationships" [Leaf "showOutgoing"; Leaf "showIncoming"])).
  - simpl. discriminate.
  - simpl. intros [H | [H | []]]; discriminate H.
  - simpl. intros [H | [H | []]]; discriminate H.
  - simpl. intros [H | [H | []]]; discriminate H.
  - simpl. intros [H | [H | []]]; discriminate H.
Defined.

(** X7. A group toggle does not change the checkbox of any leaf outside the
    toggled keys, hence not the checkbox of any group that shares no leaf
    with them. *)
Theorem group_toggle_leaves_other_groups
    (prev : FormattingOptions) (keys : list string) (checked : CheckedState)
    (other : OptionItem) :
  (forall k, In k (getAllKeys other) -> ~ In k keys) ->
  allChecked (handleGroupChange keys checked prev) other = allChecked prev other
  /\ forall k, In k (getAllKeys other) ->
       keyChecked (handleGroupChange keys checked prev) k = keyChecked prev k.
Proof.
  intros Hdisj.
  assert (H : forall k, In k (getAllKeys other) ->
            keyChecked (handleGroupChange keys checked prev) k = keyChecked prev k).
  { intros k Hk. apply assignKeys_keyChecked_out. by apply Hdisj. }
  split; [|exact H]. unfold allChecked. by apply forallb_agree.
Qed.

Lemma group_toggle_leaves_other_groups_witness :
  allChecked (handleGroupChange ["showOutgoing"; "showIncoming"] Unchecked sampleOptions)
    (Group "Structure" [Leaf "groupMembers"; Leaf "showOnlyExports"])
  = allChecked sampleOptions (Group "Structure" [Leaf "groupMembers"; Leaf "showOnlyExports"]).
Proof.
  eapply proj1.
  apply (group_toggle_leaves_other_groups sampleOptions ["showOutgoing"; "showIncoming"]
           Unchecked (Group "Structure" [Leaf "groupMembers"; Leaf "showOnlyExports"])).
  simpl. intros k [<- | [<- | []]] [H | [H | []]]; discriminate H.
Defined.

Lemma handleChange_keyChecked (key : string) (checked : CheckedState)
    (prev : FormattingOptions) (k : string) :
  keyChecked (handleChange key checked prev) k
  = if String.eqb k key then isCheckedTrue checked else keyChecked prev k.
Proof.
  destruct (handleChange_spec key checked prev) as (Hset & _ & Hflags & Hfilters).
  rewrite !keyChecked_entryOf. destruct (String.eqb k key) eqn:Heq.
  - apply String.eqb_eq in Heq as ->. by rewrite Hset.
  - apply String.eqb_neq in Heq. f_equal.
    unfold entryOf. destruct (startsWith k filterPrefix) eqn:Hk.
    + apply Hfilters. by rewrite (toFilter_kindOf k Hk).
    + by apply Hflags.
Qed.

(** X8. Clicking the checkbox of an option key makes that checkbox show the
    clicked value (checked after a checked click, unchecked after an
    unchecked or an [indeterminate] one) and leaves the checkbox of every
    other key as it was. *)
Theorem leaf_toggle_sets_only_its_checkbox
    (key : string) (prev : FormattingOptions) :
  key <> "preset" ->
  key <> "displayFilters" ->
  keyChecked (handleChange key Checked prev) key = true
  /\ keyChecked (handleChange key Unchecked prev) key = false
  /\ keyChecked (handleChange key Indeterminate prev) key = false
  /\ forall checked k, k <> key ->
       keyChecked (handleChange key checked prev) k = keyChecked prev k.
Proof.
  intros _ _. split_and!.
  - by rewrite handleChange_keyChecked, String.eqb_refl.
  - by rewrite handleChange_keyChecked, String.eqb_refl.
  - by rewrite handleChange_keyChecked, String.eqb_refl.
  - intros checked k Hk. rewrite handleChange_keyChecked.
    apply String.eqb_neq in Hk. by rewrite Hk.
Qed.

Lemma leaf_toggle_sets_only_its_checkbox_witness :
  keyChecked (handleChange "showIcons" Checked
                (handleChange "showIcons" Unchecked sampleOptions)) "showIcons" = true.
Proof.
  eapply proj1.
  apply (leaf_toggle_sets_only_its_checkbox "showIcons"
           (handleChange "showIcons" Unchecked sampleOptions)); discriminate.
Defined.



(** X10. Toggling the same key twice keeps only the second click: the state
    is the one the second click alone would give. *)
Theorem leaf_toggle_last_click_wins
    (key : string) (first second : CheckedState) (prev : FormattingOptions) :
  handleChange key second (handleChange key first prev) = handleChange key second prev.
Proof.
  unfold handleChange. destruct (startsWith key filterPrefix); simpl.
  - by rewrite insert_insert_eq.
  - by rewrite insert_insert_eq.
Qed.



(** ** Expanding and collapsing *)

(** X12. Clicking a group row twice restores the expanded set; one click
    changes the membership of that group only. *)
Theorem toggleGroup_involutive (g : string) (st : PanelState) :
  toggleGroup g (toggleGroup g st) = st
  /\ (g ∈ expandedGroups (toggleGroup g st) <-> g ∉ expandedGroups st)
  /\ forall g', g' <> g ->
       (g' ∈ expandedGroups (toggleGroup g st) <-> g' ∈ expandedGroups st).
Proof.
  destruct st as [expanded term]. unfold toggleGroup. simpl. split_and!.
  - f_equal. destruct (bool_decide (g ∈ expanded)) eqn:Hg.
    + apply bool_decide_eq_true in Hg.
      rewrite bool_decide_eq_false_2 by set_solver.
      apply set_eq. intros x. destruct (decide (x = g)); set_solver.
    + apply bool_decide_eq_false in Hg.
      rewrite bool_decide_eq_true_2 by set_solver. set_solver.
  - case_bool_decide; set_solver.
  - intros g' Hne. case_bool_decide; set_solver.
Qed.

(** X13. The expand-all button always flips: after [expandAll] all groups of
    the filtered tree are expanded (the button then offers to collapse)
    whenever the filtered tree has a group at all; after [collapseAll] it
    offers to expand. *)
Theorem expand_all_then_collapse_all (st : PanelState) :
  areAllExpanded (expandAll st) = (0 <? length (allFilteredGroupNames (searchTerm st)))%nat
  /\ areAllExpanded (collapseAll st) = false
  /\ (forall g, g ∈ expandedGroups (expandAll st)
        <-> In g (allFilteredGroupNames (searchTerm st)))
  /\ searchTerm (expandAll st) = searchTerm st
  /\ searchTerm (collapseAll st) = searchTerm st.
Proof.
  unfold areAllExpanded, expandAll, collapseAll. simpl. split_and!; try done.
  - destruct (0 <? _)%nat; [|done]. simpl.
    apply forallb_forall. intros g Hg. apply bool_decide_eq_true.
    apply elem_of_list_to_set, list_elem_of_In. done.
  - destruct (allFilteredGroupNames (searchTerm st)) as [|g gs]; [done|]. simpl.
    rewrite bool_decide_eq_false_2 by set_solver. done.
  - intros g. by rewrite elem_of_list_to_set, list_elem_of_In.
Qed.

(** ** The analysis job, further *)

Section JobFurther.

Variable parseFileList : string -> list FileContent + string.
Variable calculateTokenImpact :
  list SourceFile -> FormattingOptions -> FormattingOptionsTokenImpact.

Local Abbreviation stepF := (step parseFileList calculateTokenImpact).
Local Abbreviation runF := (run parseFileList calculateTokenImpact).

Lemma step_neverReady (pg pg' : Page) (ev : Event) :
  neverReady pg -> stepF pg ev = Some pg' -> neverReady pg'.
Proof.
  destruct pg as [[ini ld res prog lg tm imp svc] s w ip r].
  unfold neverReady. simpl. intros (-> & -> & -> & -> & -> & -> & ->) Hstep.
  destruct ev; simpl in Hstep; try done; simplify_eq; simpl; done.
Qed.

(** X14. If the worker fails to initialise, no analysis ever starts: whatever
    the user does afterwards, no job is running, the loading flag is off and
    no result, time or impact table is shown. *)
Theorem failed_init_blocks_every_run
    (s0 : AppStore) (error : JsError) (now : Z) (evs : list Event) (pg : Page) :
  runF (mountedPage s0) (InitSettled (Some error) now :: evs) = Some pg ->
  isInitialized (hook pg) = false
  /\ running pg = []
  /\ isLoading (hook pg) = false
  /\ analysisResult (hook pg) = None
  /\ analysisTimeCell (hook pg) = None
  /\ tokenImpactCell (hook pg) = None.
Proof.
  simpl. intros Hrun.
  assert (H : forall evs pg0 pg1, neverReady pg0 -> runF pg0 evs = Some pg1 -> neverReady pg1).
  { clear. induction evs as [|ev evs IH]; intros pg0 pg1 Hinv Hrun; simpl in Hrun.
    - by simplify_eq.
    - destruct (stepF pg0 ev) as [pg'|] eqn:Hstep; [|done].
      eapply IH; [|exact Hrun]. by eapply step_neverReady. }
  apply H in Hrun.
  - destruct Hrun as (? & ? & ? & ? & ? & ? & ?). done.
  - unfold neverReady. simpl. done.
Qed.

(** X15. Every way the awaited analysis settles (result, error, cancellation,
    invalid input) clears the loading flag and the progress and keeps the
    worker marked ready; a run request made from the following render is then
    accepted: it turns the loading flag on again and hands the worker a
    request with the values it was given. *)
Theorem every_settlement_returns_to_idle
    (settled : Settlement AnalyzeResponse) (now now' : Z) (st : HookState)
    (text : string) (options : FormattingOptions) (include exclude : string) :
  isInitialized st = true ->
  serviceRef st = true ->
  isLoading (handleAnalyzeResume settled now st) = false
  /\ progress (handleAnalyzeResume settled now st) = None
  /\ isInitialized (handleAnalyzeResume settled now st) = true
  /\ handleAnalyzeBegin text options include exclude now' (handleAnalyzeResume settled now st)
     = (resetAnalysisState (setIsLoading true (handleAnalyzeResume settled now st)),
        Awaiting {| reqFilesInput := text; reqLogLevel := LevelDebug;
                    reqFormattingOptions := options; reqIncludePattern := include;
                    reqExcludePattern := exclude |}).
Proof.
  intros Hi Hs.
  assert (H : isLoading (handleAnalyzeResume settled now st) = false
              /\ progress (handleAnalyzeResume settled now st) = None
              /\ isInitialized (handleAnalyzeResume settled now st) = true
              /\ serviceRef (handleAnalyzeResume settled now st) = true).
  { unfold handleAnalyzeResume.
    destruct settled as [response | reason]; simpl; [done|].
    destruct (String.eqb (errorName reason) "AbortError"); simpl; done. }
  destruct H as (Hl & Hp & Hi' & Hs').
  split_and!; try done.
  unfold handleAnalyzeBegin, handleAnalyzeCall. by rewrite Hi', Hs', Hl.
Qed.

(** X16. What the hook itself writes to the log when a job ends, after the
    entries the worker reported: nothing on success, one warning
    [Analysis canceled by user.] when the rejection is an [AbortError], and
    one error entry carrying the message otherwise. *)
Theorem log_entry_per_outcome
    (pg pg1 pg2 pg3 : Page) (mids : list Event) (now now' : Z)
    (files : list FileContent) (project : ProjectOutcome) :
  ready pg ->
  stepF pg (ClickAnalyze now) = Some pg1 ->
  forallb keepsJob mids = true ->
  runF pg1 mids = Some pg2 ->
  parseFileList (filesInput (store pg)) = inl files ->
  stepF pg2 (AnalyzeSettled project now') = Some pg3 ->
  logs (hook pg3)
  = reportedLogs mids
    ++ match project with
       | ProjectAnalyzed _ _ => []
       | ProjectRejected reason =>
           if String.eqb (errorName reason) "AbortError"
           then [{| level := LevelWarn; message := "Analysis canceled by user.";
                    timestamp := now' |}]
           else [{| level := LevelError;
                    message := "Analysis error: " +:+ errorMessage reason;
                    timestamp := now' |}]
       end.
Proof.
  intros Hready Hclick Hkeep Hrun Hparse Hsettle.
  destruct (accepted_click parseFileList calculateTokenImpact pg pg1 now Hready Hclick)
    as (Hin1 & Hhook & _).
  destruct (run_keepsJob parseFileList calculateTokenImpact _ mids pg1 pg2 Hin1 Hkeep Hrun)
    as (Hin2 & Hlogs & _).
  destruct Hin2 as (_ & _ & _ & Hw & _ & aborted & Hr).
  rewrite Hhook in Hlogs. simpl in Hlogs.
  simpl in Hsettle. rewrite Hr, Hw in Hsettle. simpl in Hsettle.
  unfold workerAnalyze in Hsettle. simpl in Hsettle. rewrite Hparse in Hsettle.
  simplify_eq. unfold handleAnalyzeResume.
  destruct project as [reason | sourceFiles elapsed]; simpl.
  - destruct (String.eqb (errorName reason) "AbortError"); simpl; by rewrite Hlogs.
  - by rewrite Hlogs, app_nil_r.
Qed.

(** X17. With a file text that does not parse to an array, an accepted run
    ends as a failure whatever the analyzer would have answered: nothing is
    stored, and the log ends with the error entry
    [Analysis error: Invalid JSON input: ...] carrying the parser's message. *)
Theorem invalid_input_fails_the_run
    (pg pg1 pg2 pg3 : Page) (mids : list Event) (now now' : Z)
    (parseMessage : string) (project : ProjectOutcome) :
  ready pg ->
  stepF pg (ClickAnalyze now) = Some pg1 ->
  forallb keepsJob mids = true ->
  runF pg1 mids = Some pg2 ->
  parseFileList (filesInput (store pg)) = inr parseMessage ->
  stepF pg2 (AnalyzeSettled project now') = Some pg3 ->
  analysisResult (hook pg3) = None
  /\ analysisTimeCell (hook pg3) = None
  /\ tokenImpactCell (hook pg3) = None
  /\ isLoading (hook pg3) = false
  /\ logs (hook pg3)
     = reportedLogs mids
       ++ [{| level := LevelError;
              message := "Analysis error: " +:+ ("Invalid JSON input: " +:+ parseMessage);
              timestamp := now' |}].
Proof.
  intros Hready Hclick Hkeep Hrun Hparse Hsettle.
  destruct (accepted_click parseFileList calculateTokenImpact pg pg1 now Hready Hclick)
    as (Hin1 & Hhook & _).
  destruct (run_keepsJob parseFileList calculateTokenImpact _ mids pg1 pg2 Hin1 Hkeep Hrun)
    as (Hin2 & Hlogs & Hres & Htm & Himp).
  destruct Hin2 as (_ & _ & _ & Hw & _ & aborted & Hr).
  rewrite Hhook in Hlogs, Hres, Htm, Himp. simpl in Hlogs, Hres, Htm, Himp.
  simpl in Hsettle. rewrite Hr, Hw in Hsettle. simpl in Hsettle.
  unfold workerAnalyze in Hsettle. simpl in Hsettle. rewrite Hparse in Hsettle.
  simplify_eq. unfold handleAnalyzeResume. simpl. rewrite Hlogs. done.
Qed.

(** X18. Stopping is cooperative: a click on stop never changes the hook
    state or the store and never ends a job; it marks the running job as
    aborted, and with no job running it does nothing at all. *)
Theorem stop_only_marks_the_job
    (s0 : AppStore) (evs : list Event) (pg : Page) :
  runF (mountedPage s0) evs = Some pg ->
  exists pg',
    stepF pg ClickStop = Some pg'
    /\ hook pg' = hook pg
    /\ store pg' = store pg
    /\ map jobRequest (running pg') = map jobRequest (running pg)
    /\ (forall job, In job (running pg') -> jobAborted job = true)
    /\ (running pg = [] -> pg' = pg).
Proof.
  intros Hrun.
  pose proof (run_singleFlight parseFileList calculateTokenImpact evs _ _
                (mounted_singleFlight s0) Hrun) as (Hsvc & Hini & Hld & Hidle).
  destruct pg as [[ini ld res prog lg tm imp svc] s w ip r]. simpl in *. subst svc.
  unfold handleStop. simpl. destruct ld; simpl.
  - destruct (Hld eq_refl) as [job ->]. eexists. split; [reflexivity|]. simpl.
    split_and!; try done. intros j [<- | []]. done.
  - rewrite (Hidle eq_refl). eexists. split; [reflexivity|]. simpl.
    split_and!; try done.
Qed.

End JobFurther.

Lemma every_settlement_returns_to_idle_witness :
  isLoading (handleAnalyzeResume (Rejected (newError "boom")) 2
               (setIsLoading true (hook readyPage))) = false.
Proof.
  eapply proj1.
  apply (every_settlement_returns_to_idle (Rejected (newError "boom")) 2 3
           (setIsLoading true (hook readyPage)) "[]" sampleOptions "**/*" "").
  - reflexivity.
  - reflexivity.
Defined.

Lemma log_entry_per_outcome_witness :
  exists pg3,
    run sampleParse sampleImpact readyPage
      [ClickAnalyze 1; ClickStop;
       AnalyzeSettled (ProjectRejected {| errorName := "AbortError"; errorMessage := "aborted" |}) 4]
    = Some pg3
    /\ logs (hook pg3)
       = [{| level := LevelWarn; message := "Analysis canceled by user."; timestamp := 4 |}].
Proof.
  eexists. split; [reflexivity|].
  eapply (log_entry_per_outcome sampleParse sampleImpact readyPage _ _ _ [ClickStop] 1 4 []
           (ProjectRejected {| errorName := "AbortError"; errorMessage := "aborted" |})).
  - exact readyPage_ready.
  - reflexivity.
  - reflexivity.
  - reflexivity.
  - reflexivity.
  - reflexivity.
Defined.

Lemma stop_only_marks_the_job_witness :
  exists pg pg',
    run sampleParse sampleImpact (mountedPage sampleStore)
      [InitSettled None 0; ClickAnalyze 1] = Some pg
    /\ step sampleParse sampleImpact pg ClickStop = Some pg'
    /\ hook pg' = hook pg.
Proof.
  eexists. eexists. split; [reflexivity|]. split; [reflexivity|].
  match goal with
  | |- hook ?after = _ =>
      destruct (stop_only_marks_the_job sampleParse sampleImpact sampleStore
                  [InitSettled None 0; ClickAnalyze 1]
                  (default readyPage
                     (run sampleParse sampleImpact (mountedPage sampleStore)
                        [InitSettled None 0; ClickAnalyze 1])))
        as (pg' & Hstep & Hhook & _); [reflexivity|];
      assert (Heq : Some pg' = Some after) by (rewrite <- Hstep; reflexivity)
  end.
  injection Heq as ->. exact Hhook.
Defined.

(** ** The worker's sanitizer *)

(** X19. The sanitizer keeps the list of files, their paths and the identity
    of their languages; in its output no file has a parse tree and no
    language has a parser or a loaded grammar; sanitizing twice changes
    nothing more. *)
Theorem sanitize_strips_handles_only (files : list SourceFile) :
  map sourcePath (sanitizeAnalysisResult files) = map sourcePath files
  /\ map (fun f => option_map languageId (sourceLanguage f)) (sanitizeAnalysisResult files)
     = map (fun f => option_map languageId (sourceLanguage f)) files
  /\ (forall f, In f (sanitizeAnalysisResult files) ->
        sourceAst f = None
        /\ forall language, sourceLanguage f = Some language ->
             languageParser language = None /\ loadedLanguage language = None)
  /\ sanitizeAnalysisResult (sanitizeAnalysisResult files) = sanitizeAnalysisResult files.
Proof.
  unfold sanitizeAnalysisResult. split_and!.
  - rewrite map_map. done.
  - rewrite map_map. apply map_ext. intros f. simpl. by destruct (sourceLanguage f).
  - intros f Hf. apply in_map_iff in Hf as (f0 & <- & _). simpl. split; [done|].
    intros language Hl. destruct (sourceLanguage f0); simpl in Hl; [|done].
    by injection Hl as <-.
  - rewrite map_map. apply map_ext. intros f. simpl. f_equal.
    by destruct (sourceLanguage f).
Qed.

Lemma readFile_stable (heap heap' : gmap positive Language) (file : FileObject) :
  heap ⊆ heap' ->
  (forall ref, objLanguage file = Some ref -> is_Some (heap !! ref)) ->
  readFile heap' file = readFile heap file.
Proof.
  intros Hsub Hptr. unfold readFile. f_equal.
  destruct (objLanguage file) as [ref|]; [|done].
  destruct (Hptr ref eq_refl) as [language Hl].
  rewrite Hl. by apply (lookup_weaken heap heap').
Qed.

Lemma map_readFile_stable (heap heap' : gmap positive Language) (files : list FileObject) :
  heap ⊆ heap' -> wellPointed heap files ->
  map (readFile heap') files = map (readFile heap) files.
Proof.
  intros Hsub Hwp. apply map_ext_in. intros file Hin.
  apply readFile_stable; [done|]. intros ref. by apply Hwp.
Qed.

Lemma wellPointed_weaken (heap heap' : gmap positive Language) (files : list FileObject) :
  heap ⊆ heap' -> wellPointed heap files -> wellPointed heap' files.
Proof.
  intros Hsub Hwp file ref Hin Href.
  destruct (Hwp file ref Hin Href) as [language Hl].
  exists language. by apply (lookup_weaken heap heap').
Qed.

Lemma fresh_copy_subseteq (heap : gmap positive Language) (language : Language) :
  heap ⊆ <[fresh (dom heap) := language]> heap.
Proof.
  apply insert_subseteq. apply not_elem_of_dom. apply is_fresh.
Qed.

Lemma sanitize_fold (files : list FileObject) :
  forall (heap : gmap positive Language) (done : list FileObject),
    wellPointed heap files -> wellPointed heap done ->
    let r := fold_left sanitizeFileObject files (heap, done) in
    heap ⊆ r.1
    /\ map (readFile r.1) r.2
       = map (readFile heap) done ++ sanitizeAnalysisResult (map (readFile heap) files).
Proof.
  induction files as [|file files IH]; intros heap done Hfiles Hdone; cbv zeta.
  - simpl. split; [done|]. by rewrite app_nil_r.
  - change (fold_left sanitizeFileObject (file :: files) (heap, done))
      with (fold_left sanitizeFileObject files (sanitizeFileObject (heap, done) file)).
    assert (Htail : wellPointed heap files).
    { intros f ref Hin. apply Hfiles. by right. }
    destruct (objLanguage file) as [ref|] eqn:Href.
    + destruct (Hfiles file ref (or_introl eq_refl) Href) as [language Hl].
      set (heap1 := <[fresh (dom heap) := sanitizeLanguage language]> heap).
      replace (sanitizeFileObject (heap, done) file)
        with (heap1, done ++ [{| objPath := objPath file; objAst := None;
                                 objLanguage := Some (fresh (dom heap)) |}])
        by (unfold sanitizeFileObject; by rewrite Href, Hl).
      assert (Hsub : heap ⊆ heap1) by apply fresh_copy_subseteq.
      destruct (IH heap1
                  (done ++ [{| objPath := objPath file; objAst := None;
                               objLanguage := Some (fresh (dom heap)) |}]))
        as [Hsub' Hread].
      * by apply (wellPointed_weaken heap).
      * intros f r Hin Hr. apply in_app_iff in Hin as [Hin | [<- | []]].
        -- by apply (wellPointed_weaken heap heap1 done Hsub Hdone f r).
        -- simpl in Hr. injection Hr as <-. exists (sanitizeLanguage language).
           apply lookup_insert_eq.
      * split; [by etrans|]. rewrite Hread.
        rewrite map_app, (map_readFile_stable heap heap1 done Hsub Hdone),
          (map_readFile_stable heap heap1 files Hsub Htail), <- app_assoc.
        f_equal. simpl. f_equal. unfold readFile. simpl.
        rewrite Href, Hl. simpl. f_equal. apply lookup_insert_eq.
    + replace (sanitizeFileObject (heap, done) file)
        with (heap, done ++ [{| objPath := objPath file; objAst := None;
                                objLanguage := None |}])
        by (unfold sanitizeFileObject; by rewrite Href).
      destruct (IH heap (done ++ [{| objPath := objPath file; objAst := None;
                                     objLanguage := None |}]))
        as [Hsub' Hread]; [done | |].
      * intros f r Hin Hr. apply in_app_iff in Hin as [Hin | [<- | []]];
          [by apply (Hdone f r) | done].
      * split; [done|]. rewrite Hread, map_app, <- app_assoc.
        f_equal. simpl. f_equal. unfold readFile. simpl. by rewrite Href.
Qed.

(** X20. Sanitizing never touches a language object that was there before:
    every reference valid before the call still reads the same object, with
    its parser and grammar, after it.  The files now point to fresh stripped
    copies, and what they read is the sanitized form of what they read
    before. *)
Theorem sanitize_spares_shared_language
    (heap : gmap positive Language) (files : list FileObject) :
  wellPointed heap files ->
  let r := sanitizeInHeap heap files in
  (forall ref language, heap !! ref = Some language -> r.1 !! ref = Some language)
  /\ map (readFile r.1) r.2 = sanitizeAnalysisResult (map (readFile heap) files).
Proof.
  intros Hwp. cbv zeta. unfold sanitizeInHeap.
  destruct (sanitize_fold files heap [] Hwp) as [Hsub Hread].
  { intros f ref []. }
  split.
  - intros ref language Hl. by apply (lookup_weaken heap).
  - exact Hread.
Qed.

Lemma sanitize_spares_shared_language_witness :
  (sanitizeInHeap
     {[ 1%positive := {| languageId := "typescript"; languageParser := Some 7%N;
                         loadedLanguage := Some 8%N |} ]}
     [ {| objPath := "a.ts"; objAst := Some 1%N; objLanguage := Some 1%positive |};
       {| objPath := "b.ts"; objAst := Some 2%N; objLanguage := Some 1%positive |} ]).1
    !! 1%positive
  = Some {| languageId := "typescript"; languageParser := Some 7%N;
            loadedLanguage := Some 8%N |}.
Proof.
  destruct (sanitize_spares_shared_language
              {[ 1%positive := {| languageId := "typescript"; languageParser := Some 7%N;
                                  loadedLanguage := Some 8%N |} ]}
              [ {| objPath := "a.ts"; objAst := Some 1%N; objLanguage := Some 1%positive |};
                {| objPath := "b.ts"; objAst := Some 2%N; objLanguage := Some 1%positive |} ])
    as [Hkept _].
  - intros f ref [<- | [<- | []]] [= <-]; eexists; apply lookup_singleton_eq.
  - apply Hkept. apply lookup_singleton_eq.
Defined.

(** ** The include and exclude lists *)







(** ** The symbol counter *)

(** X22. The counter of the options header never shows more visible symbols
    than symbols; without a result both are 0; and with [showOnlyExports] off
    and no display filters every symbol is visible. *)
Theorem symbolCounts_bounds
    (fileSymbols : option (list (list CodeSymbol))) (options : FormattingOptions) :
  ((symbolCounts fileSymbols options).2 <= (symbolCounts fileSymbols options).1)%nat
  /\ (fileSymbols = None -> symbolCounts fileSymbols options = (0, 0)%nat)
  /\ (default false (flags options !! "showOnlyExports") = false ->
      displayFilters options = None ->
      (symbolCounts fileSymbols options).2 = (symbolCounts fileSymbols options).1).
Proof.
  split_and!.
  - destruct fileSymbols as [files|]; simpl; [|lia].
    destruct (displayFilters options) as [filters|];
      destruct (default false (flags options !! "showOnlyExports")).
    + etrans; [apply filter_length_le | apply filter_length_le].
    + apply filter_length_le.
    + apply filter_length_le.
    + done.
  - by intros ->.
  - intros Hexp Hnone. destruct fileSymbols as [files|]; simpl; [|done].
    by rewrite Hexp, Hnone.
Qed.

Lemma existsb_eqb_In (k : string) (l : list string) :
  existsb (String.eqb k) l = true <-> In k l.
Proof.
  rewrite existsb_exists. split.
  - intros (x & Hx & Heq). apply String.eqb_eq in Heq. by subst.
  - intros Hin. exists k. split; [done | apply String.eqb_refl].
Qed.

(** X23. The counter resolves a kind through a plain read of its entry, then
    the entry [*], then [true], while the checkbox of the kind looks at its
    own entry only.  For a kind that is not the name of a property every
    object inherits: with [*] set to [false] and no entry for the kind, the
    symbols of that kind are not counted as visible although its checkbox is
    checked.  For a kind named like an inherited property (such as
    [constructor]) and without an entry, the read finds the inherited value
    and the symbols are counted as visible whatever [*] says. *)
Theorem wildcard_hides_kind_shown_checked
    (options : FormattingOptions) (filters : gmap string bool)
    (kind : string) (exported : bool) :
  displayFilters options = Some filters ->
  filters !! kind = None ->
  filters !! "*" = Some false ->
  ~ In kind objectPrototypeNames ->
  symbolShown filters {| symbolKind := kind; isExported := exported |} = false
  /\ keyChecked options (toFilter kind) = true
  /\ (symbolCounts (Some [[{| symbolKind := kind; isExported := exported |}]]) options).2 = 0%nat
  /\ (forall inherited, In inherited objectPrototypeNames -> filters !! inherited = None ->
        symbolShown filters {| symbolKind := inherited; isExported := exported |} = true).
Proof.
  intros Hdf Hkind Hstar Hown.
  assert (Hno : existsb (String.eqb kind) objectPrototypeNames = false).
  { destruct (existsb (String.eqb kind) objectPrototypeNames) eqn:He; [|done].
    apply existsb_eqb_In in He. done. }
  assert (Hshown : symbolShown filters {| symbolKind := kind; isExported := exported |} = false).
  { unfold symbolShown. cbn [symbolKind]. by rewrite Hkind, Hno, Hstar. }
  split_and!.
  - exact Hshown.
  - unfold keyChecked. rewrite startsWith_toFilter, Hdf, kindOf_toFilter, Hkind. done.
  - unfold symbolCounts. rewrite Hdf. cbn [concat app length].
    destruct (default false (flags options !! "showOnlyExports")).
    + cbn [List.filter isExported]. destruct exported; [|done].
      cbn [List.filter]. by rewrite Hshown.
    + cbn [List.filter]. by rewrite Hshown.
  - intros inherited Hin Hnone. unfold symbolShown. cbn [symbolKind].
    apply existsb_eqb_In in Hin. by rewrite Hnone, Hin.
Qed.

Lemma wildcard_hides_kind_shown_checked_witness :
  keyChecked {| preset := None; flags := ∅; displayFilters := Some {[ "*" := false ]} |}
    (toFilter "class") = true
  /\ symbolShown {[ "*" := false ]} {| symbolKind := "class"; isExported := true |} = false.
Proof.
  destruct (wildcard_hides_kind_shown_checked
              {| preset := None; flags := ∅; displayFilters := Some {[ "*" := false ]} |}
              {[ "*" := false ]} "class" true) as (H1 & H2 & _).
  - reflexivity.
  - reflexivity.
  - reflexivity.
  - vm_compute. intuition discriminate.
  - split; [exact H2 | exact H1].
Defined.

(** ** The log viewer *)

Lemma filter_all {A : Type} (f : A -> bool) (l : list A) :
  (forall x, In x l -> f x = true) -> List.filter f l = l.
Proof.
  induction l as [|x l IH]; intros H; simpl; [done|].
  rewrite (H x (or_introl eq_refl)), IH; [done|]. intros y Hy. apply H. by right.
Qed.

(** X24. With the initial level set every log entry is listed; clicking a
    level button twice restores the set; and after hiding one level from the
    initial set exactly the entries of the other levels are listed. *)
Theorem log_level_filter (logEntries : list LogEntry) (lvl : LogLevel)
    (visibleLevels : gset LogLevel) :
  filteredLogs logEntries initialVisibleLevels = logEntries
  /\ toggleLevel lvl (toggleLevel lvl visibleLevels) = visibleLevels
  /\ (forall log, In log (filteredLogs logEntries (toggleLevel lvl initialVisibleLevels))
        <-> In log logEntries /\ level log <> lvl).
Proof.
  split_and!.
  - apply filter_all. intros log _. apply bool_decide_eq_true.
    unfold initialVisibleLevels, LOG_LEVELS. destruct (level log); set_solver.
  - unfold toggleLevel. destruct (bool_decide (lvl ∈ visibleLevels)) eqn:Hl.
    + apply bool_decide_eq_true in Hl.
      rewrite bool_decide_eq_false_2 by set_solver.
      apply set_eq. intros x. destruct (decide (x = lvl)); set_solver.
    + apply bool_decide_eq_false in Hl.
      rewrite bool_decide_eq_true_2 by set_solver. set_solver.
  - intros log. unfold filteredLogs. rewrite filter_In, bool_decide_eq_true.
    unfold toggleLevel.
    assert (Hin : lvl ∈ initialVisibleLevels).
    { unfold initialVisibleLevels, LOG_LEVELS. destruct lvl; set_solver. }
    rewrite bool_decide_eq_true_2 by done.
    assert (Hall : level log ∈ initialVisibleLevels).
    { unfold initialVisibleLevels, LOG_LEVELS. destruct (level log); set_solver. }
    set_solver.
Qed.

(** X25. What the viewer shows around an empty list: [No logs yet] only when
    there is no entry at all; with entries that are all filtered out it says
    so, still shows the copy button, and a click on it copies nothing; with a
    visible entry there is no notice and the click copies. *)
Theorem log_viewer_empty_states
    (logEntries : list LogEntry) (visibleLevels : gset LogLevel) :
  (logEntries = [] ->
     emptyNotice logEntries visibleLevels
     = Some ("No logs yet. Click " +:+ String (ascii_of_nat 34)
               ("Analyze" +:+ String (ascii_of_nat 34) " to start."))
     /\ copyButtonShown logEntries = false)
  /\ (logEntries <> [] -> filteredLogs logEntries visibleLevels = [] ->
        emptyNotice logEntries visibleLevels = Some "No logs match the current filter."
        /\ copyButtonShown logEntries = true
        /\ copyWrites logEntries visibleLevels = false)
  /\ (filteredLogs logEntries visibleLevels <> [] ->
        emptyNotice logEntries visibleLevels = None
        /\ copyButtonShown logEntries = true
        /\ copyWrites logEntries visibleLevels = true).
Proof.
  unfold emptyNotice, copyButtonShown, copyWrites. split_and!.
  - intros ->. done.
  - intros Hne Hnone. rewrite Hnone. by destruct logEntries.
  - intros Hsome.
    destruct (filteredLogs logEntries visibleLevels) eqn:Hf; [done|].
    destruct logEntries; [done|]. done.
Qed.

(** ** The sidebar *)

(** X26. While dragging, the sidebar width is never above the maximal width;
    when the minimal width fits under the maximal one the width stays
    between the two and follows the pointer inside that range; when the
    window is so narrow that the maximal width is below the minimal one, the
    maximal width wins.  A pointer move outside a drag changes nothing. *)
Theorem sidebar_width_clamped (minWidth maxWidth clientX : QArith_base.Q)
    (st : SidebarState) :
  let dragged :=
    sidebarStep minWidth (sidebarStep minWidth st MouseDown) (MouseMove clientX maxWidth) in
  QArith_base.Qle (sidebarWidth dragged) maxWidth
  /\ (QArith_base.Qle minWidth maxWidth ->
        QArith_base.Qle minWidth (sidebarWidth dragged)
        /\ (QArith_base.Qle minWidth clientX -> QArith_base.Qle clientX maxWidth ->
              QArith_base.Qeq (sidebarWidth dragged) clientX))
  /\ (QArith_base.Qlt maxWidth minWidth ->
        QArith_base.Qeq (sidebarWidth dragged) maxWidth)
  /\ sidebarStep minWidth (sidebarStep minWidth st MouseUp) (MouseMove clientX maxWidth)
     = sidebarStep minWidth st MouseUp.
Proof.
  cbv zeta. simpl. unfold clampWidth. split_and!.
  - apply Qminmax.Q.le_min_l.
  - intros Hfit. split.
    + apply Qminmax.Q.min_glb; [done | apply Qminmax.Q.le_max_l].
    + intros Hlo Hhi.
      rewrite (Qminmax.Q.max_r minWidth clientX Hlo).
      by apply Qminmax.Q.min_r.
  - intros Hnarrow. apply Qminmax.Q.min_l.
    eapply QArith_base.Qle_trans; [|apply Qminmax.Q.le_max_l].
    by apply QArith_base.Qlt_le_weak.
  - reflexivity.
Qed.

Lemma failed_init_blocks_every_run_witness :
  exists pg,
    run sampleParse sampleImpact (mountedPage sampleStore)
      [InitSettled (Some (newError "no wasm")) 0; ClickAnalyze 1; ClickAnalyze 2] = Some pg
    /\ running pg = [].
Proof.
  eexists. split; [reflexivity|].
  eapply proj1, proj2.
  apply (failed_init_blocks_every_run sampleParse sampleImpact sampleStore
           (newError "no wasm") 0 [ClickAnalyze 1; ClickAnalyze 2]).
  reflexivity.
Defined.

Lemma invalid_input_fails_the_run_witness :
  exists pg3,
    run strictParse sampleImpact badInputPage
      [ClickAnalyze 1; AnalyzeSettled (ProjectAnalyzed [sampleFile] 5) 3] = Some pg3
    /\ analysisResult (hook pg3) = None.
Proof.
  eexists. split; [reflexivity|].
  eapply proj1.
  eapply (invalid_input_fails_the_run strictParse sampleImpact badInputPage _ _ _
            [] 1 3 "Unexpected token" (ProjectAnalyzed [sampleFile] 5)).
  - unfold ready. simpl. split_and!; reflexivity.
  - reflexivity.
  - reflexivity.
  - reflexivity.
  - reflexivity.
  - reflexivity.
Defined.
